(** * finance_credit: the three collection options and the recommendation

    Shallow embedding of [finance.py].  The three [calcular_opcion_*]
    functions and the selection of [mejor_opcion] are translated from the
    source; Python floats are idealised as exact rationals ([Q]), so every
    equation between amounts is stated up to [Qeq] ([==]).  Python
    exceptions are the [Err] results of a small error monad. *)

From Stdlib Require Import QArith Qabs Qpower ZArith List String Lia Lqa Bool.
Import ListNotations.
Open Scope Q_scope.

(** ** Exceptions and results *)

(** The exceptions the modelled fragment can raise.  [finance.py] defines
    no exception of its own and contains no [raise]. *)
Inductive exn : Type :=
| ZeroDivisionError
| ValueError
| TypeError.

Inductive result (A : Type) : Type :=
| OK : A -> result A
| Err : exn -> result A.

Arguments OK {A} _.
Arguments Err {A} _.

Definition bind {A B : Type} (c : result A) (k : A -> result B) : result B :=
  match c with
  | OK a => k a
  | Err e => Err e
  end.

Notation "x <- c ;; k" := (bind c (fun x => k))
  (at level 61, c at next level, right associativity).

(** ** Python arithmetic on idealised floats *)

(** [a / b]: true division raises [ZeroDivisionError] on a zero divisor. *)
Definition py_div (a b : Q) : result Q :=
  if Qeq_bool b 0 then Err ZeroDivisionError else OK (a / b).

(** [x ** n] for an integer exponent; the source only uses [n >= 1]. *)
Definition py_pow (x : Q) (n : Z) : Q := x ^ n.

(** [a > b] *)
Definition py_gt (a b : Q) : bool := negb (Qle_bool a b).

(** [range(lo, hi)] *)
Definition py_range (lo hi : Z) : list Z :=
  map (fun k => (lo + Z.of_nat k)%Z) (seq 0 (Z.to_nat (hi - lo))).

(** [for x in xs: st = body(st, x)], stopping at the first exception. *)
Fixpoint for_each {S A : Type} (body : S -> A -> result S) (xs : list A)
  (st : S) : result S :=
  match xs with
  | [] => OK st
  | x :: xs' => st' <- body st x ;; for_each body xs' st'
  end.

(** ** Schedules *)

(** A row of the data frames of options 1 and 2. *)
Record fila : Type := mk_fila {
  Mes : Z;
  Flujo_de_Caja : Q;
  Valor_Actual : Q
}.

(** A row of the data frame of option 3, with its extra column. *)
Record fila_dolar : Type := mk_fila_dolar {
  Mes_d : Z;
  TC_Proyectado : Q;
  Flujo_de_Caja_d : Q;
  Valor_Actual_d : Q
}.

(** [sum] of a column, added left to right from 0. *)
Definition suma (xs : list Q) : Q := fold_left Qplus xs 0.

(** ** Option 1: discounted lump sum *)

Definition calcular_opcion_1_contado (monto_capital descuento_pct : Q)
  : Q * list fila :=
  let pago_contado := monto_capital * (1 - descuento_pct / 100) in
  let van := pago_contado in
  let df := [ mk_fila 0 pago_contado van ] in
  (van, df).

(** ** Option 2: installments indexed by inflation *)

(** One turn of the loop of option 2 on the state [(flujos, van)]. *)
Definition paso_inflacion (cuota_capital_base inflacion_mensual
  tasa_descuento_mensual : Q) (st : list fila * Q) (mes : Z)
  : result (list fila * Q) :=
  let '(flujos, van) := st in
  let factor_ajuste := py_pow (1 + inflacion_mensual) mes in
  let cuota_ajustada := cuota_capital_base * factor_ajuste in
  valor_actual_cuota <-
    py_div cuota_ajustada (py_pow (1 + tasa_descuento_mensual) mes) ;;
  OK (flujos ++ [ mk_fila mes cuota_ajustada valor_actual_cuota ],
      van + valor_actual_cuota).

Definition calcular_opcion_2_inflacion (monto_capital : Q) (plazo_meses : Z)
  (inflacion_mensual_pct tasa_descuento_mensual : Q)
  : result (Q * list fila) :=
  cuota_capital_base <- py_div monto_capital (inject_Z plazo_meses) ;;
  let inflacion_mensual := inflacion_mensual_pct / 100 in
  st <- for_each
          (paso_inflacion cuota_capital_base inflacion_mensual
             tasa_descuento_mensual)
          (py_range 1 (plazo_meses + 1)) ([], 0) ;;
  let '(flujos, van) := st in
  OK (van, flujos).

(** ** Option 3: installments indexed by the exchange rate *)

Definition paso_dolar (cuota_usd tc_inicial devaluacion_mensual
  tasa_descuento_mensual : Q) (st : list fila_dolar * Q) (mes : Z)
  : result (list fila_dolar * Q) :=
  let '(flujos, van) := st in
  let tc_proyectado := tc_inicial * py_pow (1 + devaluacion_mensual) mes in
  let cuota_en_ars := cuota_usd * tc_proyectado in
  valor_actual_cuota <-
    py_div cuota_en_ars (py_pow (1 + tasa_descuento_mensual) mes) ;;
  OK (flujos ++
        [ mk_fila_dolar mes tc_proyectado cuota_en_ars valor_actual_cuota ],
      van + valor_actual_cuota).

Definition calcular_opcion_3_dolar (monto_capital : Q) (plazo_meses : Z)
  (tc_inicial devaluacion_mensual_pct tasa_descuento_mensual : Q)
  : result (Q * list fila_dolar) :=
  capital_en_usd <- py_div monto_capital tc_inicial ;;
  cuota_usd <- py_div capital_en_usd (inject_Z plazo_meses) ;;
  let devaluacion_mensual := devaluacion_mensual_pct / 100 in
  st <- for_each
          (paso_dolar cuota_usd tc_inicial devaluacion_mensual
             tasa_descuento_mensual)
          (py_range 1 (plazo_meses + 1)) ([], 0) ;;
  let '(flujos, van) := st in
  OK (van, flujos).

(** ** The recommendation *)

(** A [dict] keeps its keys in insertion order: an association list. *)
Definition dict : Type := list (string * Q).

Definition keys (d : dict) : list string := map fst d.

(** [d.get(k)]: [None] when the key is absent. *)
Fixpoint get (d : dict) (k : string) : option Q :=
  match d with
  | [] => None
  | (k', v) :: d' => if String.eqb k' k then Some v else get d' k
  end.

(** The scan of [max(iterable, key=f)] after its first item: a later item
    replaces the current one only when its key is strictly greater.
    Comparing a [None] key raises [TypeError]. *)
Fixpoint max_scan {A : Type} (f : A -> option Q) (xs : list A)
  (best : A) (best_key : option Q) : result A :=
  match xs with
  | [] => OK best
  | x :: xs' =>
      match f x, best_key with
      | Some v, Some bv =>
          if py_gt v bv then max_scan f xs' x (Some v)
          else max_scan f xs' best best_key
      | _, _ => Err TypeError
      end
  end.

(** [max(xs, key=f)]; [ValueError] on an empty iterable. *)
Definition py_max {A : Type} (f : A -> option Q) (xs : list A) : result A :=
  match xs with
  | [] => Err ValueError
  | x :: xs' => max_scan f xs' x (f x)
  end.

Definition opcion_1 : string := "Opción 1: Pago Contado".
Definition opcion_2 : string := "Opción 2: Cuotas + Inflación".
Definition opcion_3 : string := "Opción 3: Cuotas 'Dólar'".

Definition resultados (van1 van2 van3 : Q) : dict :=
  [ (opcion_1, van1); (opcion_2, van2); (opcion_3, van3) ].

Definition mejor_opcion (van1 van2 van3 : Q) : result string :=
  let d := resultados van1 van2 van3 in
  py_max (get d) (keys d).

(** ** The page body *)

(** The number of installments is fixed by the page. *)
Definition plazo_meses : Z := 12.

(** The computation of the page from its inputs to the recommended option:
    the three evaluations in their order, then the maximum.  The monthly
    discount rate, which the page derives from the annual rate by a twelfth
    root, is taken as an input. *)
Definition recomendacion (monto_capital descuento_contado_pct tc_inicial
  inflacion_mensual_pct devaluacion_mensual_pct tasa_descuento_mensual : Q)
  : result string :=
  let '(van1, df1) :=
    calcular_opcion_1_contado monto_capital descuento_contado_pct in
  r2 <- calcular_opcion_2_inflacion monto_capital plazo_meses
          inflacion_mensual_pct tasa_descuento_mensual ;;
  let '(van2, df2) := r2 in
  r3 <- calcular_opcion_3_dolar monto_capital plazo_meses tc_inicial
          devaluacion_mensual_pct tasa_descuento_mensual ;;
  let '(van3, df3) := r3 in
  mejor_opcion van1 van2 van3.

(** [df['Flujo de Caja (AR$)'].sum()]: the nominal total shown for the
    schedules of options 2 and 3. *)
Definition total_nominal (df : list fila) : Q :=
  suma (map Flujo_de_Caja df).

Definition total_nominal_dolar (df : list fila_dolar) : Q :=
  suma (map Flujo_de_Caja_d df).

(** ** The rows the loops append *)

(** The row that the loop of option 2 appends for [mes], when the division
    succeeds. *)
Definition fila_inflacion (cuota_capital_base inflacion_mensual
  tasa_descuento_mensual : Q) (mes : Z) : fila :=
  let cuota_ajustada :=
    cuota_capital_base * py_pow (1 + inflacion_mensual) mes in
  mk_fila mes cuota_ajustada
    (cuota_ajustada / py_pow (1 + tasa_descuento_mensual) mes).

(** The row that the loop of option 3 appends for [mes], when the division
    succeeds. *)
Definition fila_dolar_mes (cuota_usd tc_inicial devaluacion_mensual
  tasa_descuento_mensual : Q) (mes : Z) : fila_dolar :=
  let tc_proyectado := tc_inicial * py_pow (1 + devaluacion_mensual) mes in
  let cuota_en_ars := cuota_usd * tc_proyectado in
  mk_fila_dolar mes tc_proyectado cuota_en_ars
    (cuota_en_ars / py_pow (1 + tasa_descuento_mensual) mes).

(** Agreement of two option-3 rows on everything but the projected rate. *)
Definition misma_fila_dolar (a b : fila_dolar) : Prop :=
  Mes_d a = Mes_d b /\
  Flujo_de_Caja_d a == Flujo_de_Caja_d b /\
  Valor_Actual_d a == Valor_Actual_d b.

(** Agreement of an option-3 row with an option-2 row. *)
Definition misma_fila (a : fila_dolar) (b : fila) : Prop :=
  Mes_d a = Mes b /\
  Flujo_de_Caja_d a == Flujo_de_Caja b /\
  Valor_Actual_d a == Valor_Actual b.

(** ** Proof automation *)

(** Checks one position of [resultados] against the chosen maximum. *)
Ltac compara_posiciones :=
  let j := fresh "j" in
  let Hj := fresh "Hj" in
  let Hlt := fresh "Hlt" in
  intros j ? ? Hj;
  destruct j as [ | [ | [ | j ] ] ]; cbn in Hj;
  [ injection Hj as _ <- | injection Hj as _ <- | injection Hj as _ <-
  | destruct j; discriminate Hj ];
  (split; [ lra | intros Hlt; first [ lia | lra ] ]).

(** ** Basic facts on the Python operations *)

Lemma py_div_ok (a b : Q) : ~ b == 0 -> py_div a b = OK (a / b).
Proof.
  intros Hb. unfold py_div.
  destruct (Qeq_bool b 0) eqn:E; [ | reflexivity ].
  apply Qeq_bool_iff in E. contradiction.
Qed.

Lemma py_div_zero (a b : Q) : b == 0 -> py_div a b = Err ZeroDivisionError.
Proof.
  intros Hb. unfold py_div.
  apply Qeq_bool_iff in Hb. now rewrite Hb.
Qed.

Lemma py_div_cases (a b : Q) :
  (b == 0 /\ py_div a b = Err ZeroDivisionError) \/
  (~ b == 0 /\ py_div a b = OK (a / b)).
Proof.
  destruct (Qeq_dec b 0) as [H | H].
  - left. split; [ exact H | now apply py_div_zero ].
  - right. split; [ exact H | now apply py_div_ok ].
Qed.

Lemma py_gt_true (a b : Q) : py_gt a b = true <-> b < a.
Proof.
  unfold py_gt. rewrite negb_true_iff. split.
  - intros H. apply Qnot_le_lt. intros Hle.
    apply Qle_bool_iff in Hle. congruence.
  - intros H. destruct (Qle_bool a b) eqn:E; [ | reflexivity ].
    apply Qle_bool_iff in E. exfalso. apply (Qlt_not_le _ _ H E).
Qed.

Lemma py_gt_false (a b : Q) : py_gt a b = false <-> a <= b.
Proof.
  unfold py_gt. rewrite negb_false_iff. apply Qle_bool_iff.
Qed.

Lemma inject_Z_zero (n : Z) : inject_Z n == 0 <-> n = 0%Z.
Proof.
  unfold Qeq, inject_Z. simpl. lia.
Qed.

(** *** [range] *)

Lemma py_range_empty (lo hi : Z) : (hi <= lo)%Z -> py_range lo hi = [].
Proof.
  intros H. unfold py_range.
  replace (Z.to_nat (hi - lo)) with 0%nat by lia. reflexivity.
Qed.

Lemma py_range_cons (lo hi : Z) :
  (lo < hi)%Z -> py_range lo hi = lo :: py_range (lo + 1) hi.
Proof.
  intros H. unfold py_range.
  replace (Z.to_nat (hi - lo)) with (S (Z.to_nat (hi - (lo + 1)))) by lia.
  simpl. f_equal; [ lia | ].
  rewrite <- seq_shift, map_map. apply map_ext. intros k. lia.
Qed.

Lemma py_range_snoc (lo hi : Z) :
  (lo <= hi)%Z -> py_range lo (hi + 1) = py_range lo hi ++ [hi].
Proof.
  intros H. unfold py_range.
  replace (Z.to_nat (hi + 1 - lo)) with (S (Z.to_nat (hi - lo))) by lia.
  rewrite seq_S, map_app. simpl. do 2 f_equal. lia.
Qed.

Lemma py_range_length (lo hi : Z) :
  List.length (py_range lo hi) = Z.to_nat (hi - lo).
Proof.
  unfold py_range. now rewrite length_map, length_seq.
Qed.

Lemma py_range_In (lo hi m : Z) :
  In m (py_range lo hi) <-> (lo <= m < hi)%Z.
Proof.
  unfold py_range. rewrite in_map_iff. split.
  - intros [k [Hk Hin]]. apply in_seq in Hin. lia.
  - intros H. exists (Z.to_nat (m - lo)). split; [ lia | ].
    apply in_seq. lia.
Qed.

Lemma py_range_nth_error (lo hi : Z) (k : nat) :
  (k < Z.to_nat (hi - lo))%nat ->
  nth_error (py_range lo hi) k = Some (lo + Z.of_nat k)%Z.
Proof.
  intros H. unfold py_range.
  rewrite nth_error_map, nth_error_seq.
  destruct (Nat.ltb_spec k (Z.to_nat (hi - lo))); [ reflexivity | lia ].
Qed.

(** *** Sums of a column *)

Lemma fold_left_Qplus_acc (xs : list Q) (a : Q) :
  fold_left Qplus xs a == a + suma xs.
Proof.
  unfold suma. revert a.
  induction xs as [ | x xs IH ]; intros a; simpl.
  - ring.
  - rewrite (IH (a + x)), (IH (0 + x)). ring.
Qed.

Lemma suma_cons (x : Q) (xs : list Q) : suma (x :: xs) == x + suma xs.
Proof.
  unfold suma at 1. simpl. rewrite fold_left_Qplus_acc. ring.
Qed.

Lemma suma_app (xs ys : list Q) : suma (xs ++ ys) == suma xs + suma ys.
Proof.
  unfold suma at 1. rewrite fold_left_app, fold_left_Qplus_acc.
  fold (suma xs). ring.
Qed.

Lemma suma_map_ext {A : Type} (f g : A -> Q) (xs : list A) :
  (forall x, In x xs -> f x == g x) ->
  suma (map f xs) == suma (map g xs).
Proof.
  induction xs as [ | x xs IH ]; intros H; simpl.
  - reflexivity.
  - rewrite !suma_cons, IH.
    + rewrite (H x); [ reflexivity | now left ].
    + intros y Hy. apply H. now right.
Qed.

Lemma suma_map_scale {A : Type} (c : Q) (f : A -> Q) (xs : list A) :
  suma (map (fun x => c * f x) xs) == c * suma (map f xs).
Proof.
  induction xs as [ | x xs IH ]; simpl.
  - unfold suma. simpl. ring.
  - rewrite !suma_cons, IH. ring.
Qed.

Lemma suma_map_lt {A : Type} (f g : A -> Q) (xs : list A) :
  xs <> [] ->
  (forall x, In x xs -> f x < g x) ->
  suma (map f xs) < suma (map g xs).
Proof.
  induction xs as [ | x xs IH ]; intros Hne H; [ congruence | ].
  simpl. rewrite !suma_cons.
  assert (Hx : f x < g x) by (apply H; now left).
  destruct xs as [ | y ys ].
  - simpl. unfold suma. simpl. lra.
  - assert (Hs : suma (map f (y :: ys)) < suma (map g (y :: ys))).
    { apply IH; [ discriminate | ]. intros z Hz. apply H. now right. }
    lra.
Qed.

(** ** The loop of option 2 *)

Section Inflacion.
Variables base inf r : Q.

Lemma paso_inflacion_ok (flujos : list fila) (van : Q) (mes : Z) :
  ~ 1 + r == 0 ->
  paso_inflacion base inf r (flujos, van) mes
  = OK (flujos ++ [ fila_inflacion base inf r mes ],
        van + Valor_Actual (fila_inflacion base inf r mes)).
Proof.
  intros Hr. unfold paso_inflacion.
  rewrite py_div_ok; [ reflexivity | ].
  unfold py_pow. now apply Qpower_not_0.
Qed.

Lemma paso_inflacion_zero (st : list fila * Q) (mes : Z) :
  1 + r == 0 -> mes <> 0%Z ->
  paso_inflacion base inf r st mes = Err ZeroDivisionError.
Proof.
  intros Hr Hm. destruct st as [flujos van].
  unfold paso_inflacion.
  rewrite py_div_zero; [ reflexivity | ].
  unfold py_pow. rewrite Hr. now apply Qpower_0.
Qed.

Lemma for_each_inflacion_ok (meses : list Z) :
  ~ 1 + r == 0 ->
  forall flujos van,
    for_each (paso_inflacion base inf r) meses (flujos, van)
    = OK (flujos ++ map (fila_inflacion base inf r) meses,
          fold_left Qplus
            (map Valor_Actual (map (fila_inflacion base inf r) meses)) van).
Proof.
  intros Hr.
  induction meses as [ | mes meses IH ]; intros flujos van;
    cbn [for_each map fold_left].
  - now rewrite app_nil_r.
  - rewrite paso_inflacion_ok by exact Hr. cbn [bind].
    rewrite IH, <- app_assoc. reflexivity.
Qed.

Lemma for_each_inflacion_zero (meses : list Z) (st : list fila * Q) :
  1 + r == 0 ->
  meses <> [] -> ~ In 0%Z meses ->
  for_each (paso_inflacion base inf r) meses st = Err ZeroDivisionError.
Proof.
  intros Hr Hne H0. destruct meses as [ | mes meses ]; [ congruence | ].
  cbn [for_each]. rewrite paso_inflacion_zero; [ reflexivity | exact Hr | ].
  intros ->. apply H0. now left.
Qed.

Lemma map_Mes_fila_inflacion (meses : list Z) :
  map Mes (map (fila_inflacion base inf r) meses) = meses.
Proof.
  rewrite map_map. simpl. apply map_id.
Qed.
End Inflacion.

(** What option 2 returns, as a closed expression. *)
Lemma calcular_opcion_2_inflacion_ok (P : Q) (N : Z) (i r : Q) :
  N <> 0%Z -> ~ 1 + r == 0 ->
  let df := map (fila_inflacion (P / inject_Z N) (i / 100) r)
                (py_range 1 (N + 1)) in
  calcular_opcion_2_inflacion P N i r = OK (suma (map Valor_Actual df), df).
Proof.
  intros HN Hr. unfold calcular_opcion_2_inflacion.
  rewrite py_div_ok by (rewrite inject_Z_zero; exact HN).
  simpl. rewrite for_each_inflacion_ok by exact Hr. reflexivity.
Qed.

Lemma calcular_opcion_2_inflacion_plazo_0 (P i r : Q) :
  calcular_opcion_2_inflacion P 0 i r = Err ZeroDivisionError.
Proof. reflexivity. Qed.

Lemma calcular_opcion_2_inflacion_tasa (P : Q) (N : Z) (i r : Q) :
  (1 <= N)%Z -> 1 + r == 0 ->
  calcular_opcion_2_inflacion P N i r = Err ZeroDivisionError.
Proof.
  intros HN Hr. unfold calcular_opcion_2_inflacion.
  rewrite py_div_ok by (rewrite inject_Z_zero; lia).
  simpl. rewrite for_each_inflacion_zero; [ reflexivity | exact Hr | | ].
  - rewrite py_range_cons by lia. discriminate.
  - rewrite py_range_In. lia.
Qed.

Lemma calcular_opcion_2_inflacion_plazo_neg (P : Q) (N : Z) (i r : Q) :
  (N < 0)%Z -> calcular_opcion_2_inflacion P N i r = OK (0, []).
Proof.
  intros HN. unfold calcular_opcion_2_inflacion.
  rewrite py_div_ok by (rewrite inject_Z_zero; lia).
  simpl. rewrite py_range_empty by lia. reflexivity.
Qed.

(** In exact arithmetic the installment computed from the base for month
    [m + 1] is the installment of month [m] escalated once more. *)
Remark cuota_ajustada_escalates (base inf r : Q) (m : Z) :
  (1 <= m)%Z ->
  Flujo_de_Caja (fila_inflacion base inf r (m + 1))
  == Flujo_de_Caja (fila_inflacion base inf r m) * (1 + inf).
Proof.
  intros Hm. unfold fila_inflacion, py_pow. cbn [Flujo_de_Caja].
  rewrite Qpower_plus' by lia. rewrite Qpower_1_r. ring.
Qed.

(** ** The loop of option 3 *)

Section Dolar.
Variables cuota_usd tc dev r : Q.

Lemma paso_dolar_ok (flujos : list fila_dolar) (van : Q) (mes : Z) :
  ~ 1 + r == 0 ->
  paso_dolar cuota_usd tc dev r (flujos, van) mes
  = OK (flujos ++ [ fila_dolar_mes cuota_usd tc dev r mes ],
        van + Valor_Actual_d (fila_dolar_mes cuota_usd tc dev r mes)).
Proof.
  intros Hr. unfold paso_dolar.
  rewrite py_div_ok; [ reflexivity | ].
  unfold py_pow. now apply Qpower_not_0.
Qed.

Lemma paso_dolar_zero (st : list fila_dolar * Q) (mes : Z) :
  1 + r == 0 -> mes <> 0%Z ->
  paso_dolar cuota_usd tc dev r st mes = Err ZeroDivisionError.
Proof.
  intros Hr Hm. destruct st as [flujos van].
  unfold paso_dolar.
  rewrite py_div_zero; [ reflexivity | ].
  unfold py_pow. rewrite Hr. now apply Qpower_0.
Qed.

Lemma for_each_dolar_ok (meses : list Z) :
  ~ 1 + r == 0 ->
  forall flujos van,
    for_each (paso_dolar cuota_usd tc dev r) meses (flujos, van)
    = OK (flujos ++ map (fila_dolar_mes cuota_usd tc dev r) meses,
          fold_left Qplus
            (map Valor_Actual_d
               (map (fila_dolar_mes cuota_usd tc dev r) meses)) van).
Proof.
  intros Hr.
  induction meses as [ | mes meses IH ]; intros flujos van;
    cbn [for_each map fold_left].
  - now rewrite app_nil_r.
  - rewrite paso_dolar_ok by exact Hr. cbn [bind].
    rewrite IH, <- app_assoc. reflexivity.
Qed.

Lemma for_each_dolar_zero (meses : list Z) (st : list fila_dolar * Q) :
  1 + r == 0 ->
  meses <> [] -> ~ In 0%Z meses ->
  for_each (paso_dolar cuota_usd tc dev r) meses st
  = Err ZeroDivisionError.
Proof.
  intros Hr Hne H0. destruct meses as [ | mes meses ]; [ congruence | ].
  cbn [for_each]. rewrite paso_dolar_zero; [ reflexivity | exact Hr | ].
  intros ->. apply H0. now left.
Qed.

Lemma map_Mes_fila_dolar (meses : list Z) :
  map Mes_d (map (fila_dolar_mes cuota_usd tc dev r) meses) = meses.
Proof.
  rewrite map_map. simpl. apply map_id.
Qed.
End Dolar.

(** What option 3 returns, as a closed expression. *)
Lemma calcular_opcion_3_dolar_ok (P : Q) (N : Z) (tc d r : Q) :
  ~ tc == 0 -> N <> 0%Z -> ~ 1 + r == 0 ->
  let df := map (fila_dolar_mes (P / tc / inject_Z N) tc (d / 100) r)
                (py_range 1 (N + 1)) in
  calcular_opcion_3_dolar P N tc d r
  = OK (suma (map Valor_Actual_d df), df).
Proof.
  intros Htc HN Hr. unfold calcular_opcion_3_dolar.
  rewrite py_div_ok by exact Htc. cbn [bind].
  rewrite py_div_ok by (rewrite inject_Z_zero; exact HN).
  cbn [bind]. rewrite for_each_dolar_ok by exact Hr. reflexivity.
Qed.

Lemma calcular_opcion_3_dolar_tc_0 (P : Q) (N : Z) (tc d r : Q) :
  tc == 0 -> calcular_opcion_3_dolar P N tc d r = Err ZeroDivisionError.
Proof.
  intros Htc. unfold calcular_opcion_3_dolar.
  now rewrite py_div_zero.
Qed.

Lemma calcular_opcion_3_dolar_plazo_0 (P tc d r : Q) :
  calcular_opcion_3_dolar P 0 tc d r = Err ZeroDivisionError.
Proof.
  unfold calcular_opcion_3_dolar.
  destruct (py_div_cases P tc) as [[_ E] | [_ E]]; rewrite E; reflexivity.
Qed.

Lemma calcular_opcion_3_dolar_tasa (P : Q) (N : Z) (tc d r : Q) :
  (1 <= N)%Z -> 1 + r == 0 ->
  calcular_opcion_3_dolar P N tc d r = Err ZeroDivisionError.
Proof.
  intros HN Hr. unfold calcular_opcion_3_dolar.
  destruct (py_div_cases P tc) as [[_ E] | [_ E]]; rewrite E;
    [ reflexivity | ].
  cbn [bind]. rewrite py_div_ok by (rewrite inject_Z_zero; lia).
  cbn [bind]. rewrite for_each_dolar_zero; [ reflexivity | exact Hr | | ].
  - rewrite py_range_cons by lia. discriminate.
  - rewrite py_range_In. lia.
Qed.

Lemma calcular_opcion_3_dolar_plazo_neg (P : Q) (N : Z) (tc d r : Q) :
  ~ tc == 0 -> (N < 0)%Z ->
  calcular_opcion_3_dolar P N tc d r = OK (0, []).
Proof.
  intros Htc HN. unfold calcular_opcion_3_dolar.
  rewrite py_div_ok by exact Htc. cbn [bind].
  rewrite py_div_ok by (rewrite inject_Z_zero; lia).
  cbn [bind]. rewrite py_range_empty by lia. reflexivity.
Qed.

(** ** The recommendation: [max] over the three results *)

Lemma mejor_opcion_cases (van1 van2 van3 : Q) :
  mejor_opcion van1 van2 van3
  = OK (if py_gt van2 van1
        then if py_gt van3 van2 then opcion_3 else opcion_2
        else if py_gt van3 van1 then opcion_3 else opcion_1).
Proof.
  unfold mejor_opcion, resultados, py_max, keys.
  cbn [map fst max_scan get].
  change (String.eqb opcion_1 opcion_1) with true.
  change (String.eqb opcion_1 opcion_2) with false.
  change (String.eqb opcion_2 opcion_2) with true.
  change (String.eqb opcion_1 opcion_3) with false.
  change (String.eqb opcion_2 opcion_3) with false.
  change (String.eqb opcion_3 opcion_3) with true.
  cbv iota.
  destruct (py_gt van2 van1); destruct (py_gt van3 van2);
    destruct (py_gt van3 van1); reflexivity.
Qed.

(** C1.  [mejor_opcion] returns a key of [resultados] whose value is at
    least every value of the mapping, and every key declared before it has
    a strictly smaller value: the first maximum in declaration order. *)
Theorem mejor_opcion_first_maximum (van1 van2 van3 : Q) :
  exists (n : nat) (k : string) (v : Q),
    mejor_opcion van1 van2 van3 = OK k /\
    nth_error (resultados van1 van2 van3) n = Some (k, v) /\
    get (resultados van1 van2 van3) k = Some v /\
    forall (j : nat) (k' : string) (v' : Q),
      nth_error (resultados van1 van2 van3) j = Some (k', v') ->
      v' <= v /\ ((j < n)%nat -> v' < v).
Proof.
  rewrite mejor_opcion_cases.
  destruct (py_gt van2 van1) eqn:E21;
    [ destruct (py_gt van3 van2) eqn:E32 | destruct (py_gt van3 van1) eqn:E31 ];
    repeat match goal with
      | H : py_gt _ _ = true |- _ => apply py_gt_true in H
      | H : py_gt _ _ = false |- _ => apply py_gt_false in H
      end.
  - exists 2%nat, opcion_3, van3.
    split; [ reflexivity | split; [ reflexivity | split; [ reflexivity | ] ] ].
    compara_posiciones.
  - exists 1%nat, opcion_2, van2.
    split; [ reflexivity | split; [ reflexivity | split; [ reflexivity | ] ] ].
    compara_posiciones.
  - exists 2%nat, opcion_3, van3.
    split; [ reflexivity | split; [ reflexivity | split; [ reflexivity | ] ] ].
    compara_posiciones.
  - exists 0%nat, opcion_1, van1.
    split; [ reflexivity | split; [ reflexivity | split; [ reflexivity | ] ] ].
    compara_posiciones.
Qed.

(** [max] on any list whose items all have a key: the result is the first
    item, in iteration order, whose key is maximal. *)
Lemma max_scan_first_maximum {A : Type} (f : A -> option Q) (xs : list A) :
  forall (pre : list A) (best : A) (bv : Q) (nb : nat),
    nth_error pre nb = Some best ->
    f best = Some bv ->
    (forall j x w, nth_error pre j = Some x -> f x = Some w ->
       w <= bv /\ ((j < nb)%nat -> w < bv)) ->
    (forall x, In x xs -> f x <> None) ->
    exists (r : A) (n : nat) (v : Q),
      max_scan f xs best (Some bv) = OK r /\
      nth_error (pre ++ xs) n = Some r /\
      f r = Some v /\
      forall j x w, nth_error (pre ++ xs) j = Some x -> f x = Some w ->
        w <= v /\ ((j < n)%nat -> w < v).
Proof.
  induction xs as [ | x xs IH ]; intros pre best bv nb Hnb Hbest Hpre Hkeys.
  - exists best, nb, bv. rewrite app_nil_r. cbn [max_scan]. auto.
  - cbn [max_scan].
    destruct (f x) as [v | ] eqn:Ex;
      [ | exfalso; apply (Hkeys x); [ now left | exact Ex ] ].
    assert (Hlen : (nb < List.length pre)%nat).
    { apply nth_error_Some. congruence. }
    assert (Hkeys' : forall y, In y xs -> f y <> None).
    { intros y Hy. apply Hkeys. now right. }
    replace (pre ++ x :: xs) with ((pre ++ [ x ]) ++ xs)
      by (rewrite <- app_assoc; reflexivity).
    destruct (py_gt v bv) eqn:Egt.
    + apply py_gt_true in Egt.
      apply (IH (pre ++ [ x ]) x v (List.length pre)); try assumption.
      * rewrite nth_error_app2 by lia. now rewrite Nat.sub_diag.
      * intros j y w Hj Hy.
        destruct (Nat.lt_ge_cases j (List.length pre)) as [Hlt | Hge].
        -- rewrite nth_error_app1 in Hj by exact Hlt.
           destruct (Hpre j y w Hj Hy) as [Hle _]. split; intros; lra.
        -- rewrite nth_error_app2 in Hj by exact Hge.
           destruct (j - List.length pre)%nat as [ | k ] eqn:Ek;
             [ | destruct k; discriminate Hj ].
           injection Hj as <-. rewrite Ex in Hy. injection Hy as <-.
           split; [ lra | lia ].
    + apply py_gt_false in Egt.
      apply (IH (pre ++ [ x ]) best bv nb); try assumption.
      * rewrite nth_error_app1 by exact Hlen. exact Hnb.
      * intros j y w Hj Hy.
        destruct (Nat.lt_ge_cases j (List.length pre)) as [Hlt | Hge].
        -- rewrite nth_error_app1 in Hj by exact Hlt.
           now apply (Hpre j y w).
        -- rewrite nth_error_app2 in Hj by exact Hge.
           destruct (j - List.length pre)%nat as [ | k ] eqn:Ek;
             [ | destruct k; discriminate Hj ].
           injection Hj as <-. rewrite Ex in Hy. injection Hy as <-.
           split; [ exact Egt | lia ].
Qed.

Lemma py_max_first_maximum {A : Type} (f : A -> option Q) (xs : list A) :
  xs <> [] ->
  (forall x, In x xs -> f x <> None) ->
  exists (r : A) (n : nat) (v : Q),
    py_max f xs = OK r /\
    nth_error xs n = Some r /\
    f r = Some v /\
    forall j x w, nth_error xs j = Some x -> f x = Some w ->
      w <= v /\ ((j < n)%nat -> w < v).
Proof.
  intros Hne Hkeys. destruct xs as [ | x xs ]; [ congruence | ].
  cbn [py_max].
  destruct (f x) as [v | ] eqn:Ex;
    [ | exfalso; apply (Hkeys x); [ now left | exact Ex ] ].
  apply (max_scan_first_maximum f xs [ x ] x v 0%nat).
  - reflexivity.
  - exact Ex.
  - intros j y w Hj Hy.
    destruct j as [ | j ]; [ | destruct j; discriminate Hj ].
    injection Hj as <-. rewrite Ex in Hy. injection Hy as <-.
    split; [ lra | lia ].
  - intros y Hy. apply Hkeys. now right.
Qed.

(** ** Option 1 *)

(** C4.  Option 1 returns one row, at month 0, whose cash flow and present
    value are both [P * (1 - d/100)], and that same amount as its NPV; the
    NPV is [P] for a discount of 0, [0] for a discount of 100, and 930000
    for a principal of 1000000 discounted by 7. *)
Theorem calcular_opcion_1_contado_spec :
  (forall P d : Q,
     exists row : fila,
       snd (calcular_opcion_1_contado P d) = [ row ] /\
       Mes row = 0%Z /\
       Flujo_de_Caja row == P * (1 - d / 100) /\
       Valor_Actual row == P * (1 - d / 100) /\
       fst (calcular_opcion_1_contado P d) == P * (1 - d / 100)) /\
  (forall P : Q, fst (calcular_opcion_1_contado P 0) == P) /\
  (forall P : Q, fst (calcular_opcion_1_contado P 100) == 0) /\
  fst (calcular_opcion_1_contado 1000000 7) == 930000.
Proof.
  split; [ | split; [ | split ] ].
  - intros P d. eexists. split; [ reflexivity | ].
    simpl. repeat split; reflexivity.
  - intros P. simpl. field.
  - intros P. simpl. field.
  - reflexivity.
Qed.

(** ** Shape of the schedules *)

(** C9.  With [N >= 1], whenever option 2 or option 3 returns, its schedule
    has exactly [N] rows whose months are 1, 2, ..., N in this order; they
    return unless a division by zero occurs, which happens exactly when
    [1 + r] is zero (or, for option 3, the initial exchange rate is zero).
    Option 1 always returns exactly one row, of month 0. *)
Theorem schedules_are_contiguous (P : Q) (N : Z) (desc tc i d r : Q) :
  (1 <= N)%Z ->
  match calcular_opcion_2_inflacion P N i r with
  | OK (_, df) =>
      ~ 1 + r == 0 /\
      List.length df = Z.to_nat N /\
      map Mes df = py_range 1 (N + 1) /\
      forall k : nat, (k < Z.to_nat N)%nat ->
        nth_error (map Mes df) k = Some (1 + Z.of_nat k)%Z
  | Err e => e = ZeroDivisionError /\ 1 + r == 0
  end /\
  match calcular_opcion_3_dolar P N tc d r with
  | OK (_, df) =>
      ~ tc == 0 /\ ~ 1 + r == 0 /\
      List.length df = Z.to_nat N /\
      map Mes_d df = py_range 1 (N + 1) /\
      forall k : nat, (k < Z.to_nat N)%nat ->
        nth_error (map Mes_d df) k = Some (1 + Z.of_nat k)%Z
  | Err e => e = ZeroDivisionError /\ (tc == 0 \/ 1 + r == 0)
  end /\
  map Mes (snd (calcular_opcion_1_contado P desc)) = [ 0%Z ].
Proof.
  intros HN. split; [ | split ].
  - destruct (Qeq_dec (1 + r) 0) as [Hr | Hr].
    + rewrite calcular_opcion_2_inflacion_tasa by assumption. now split.
    + rewrite calcular_opcion_2_inflacion_ok by (assumption || lia).
      rewrite map_Mes_fila_inflacion, length_map, py_range_length.
      split; [ exact Hr | split; [ f_equal; lia | split; [ reflexivity | ] ] ].
      intros k Hk. apply py_range_nth_error. lia.
  - destruct (Qeq_dec tc 0) as [Htc | Htc].
    { rewrite calcular_opcion_3_dolar_tc_0 by assumption.
      split; [ reflexivity | now left ]. }
    destruct (Qeq_dec (1 + r) 0) as [Hr | Hr].
    + rewrite calcular_opcion_3_dolar_tasa by assumption.
      split; [ reflexivity | now right ].
    + rewrite calcular_opcion_3_dolar_ok by (assumption || lia).
      rewrite map_Mes_fila_dolar, length_map, py_range_length.
      split; [ exact Htc | split; [ exact Hr | ] ].
      split; [ f_equal; lia | split; [ reflexivity | ] ].
      intros k Hk. apply py_range_nth_error. lia.
  - reflexivity.
Qed.

Lemma schedules_are_contiguous_witness :
  (1 <= 3)%Z /\
  (exists van df,
     calcular_opcion_2_inflacion 1200 3 10 (1 # 10) = OK (van, df) /\
     map Mes df = [ 1; 2; 3 ]%Z) /\
  (exists van df,
     calcular_opcion_3_dolar 1200 3 950 5 (1 # 10) = OK (van, df) /\
     map Mes_d df = [ 1; 2; 3 ]%Z).
Proof.
  assert (H3 : (1 <= 3)%Z) by lia.
  split; [ exact H3 | ].
  destruct (schedules_are_contiguous 1200 3 7 950 10 5 (1 # 10) H3)
    as [H2 [H3d _]].
  split.
  - destruct (calcular_opcion_2_inflacion 1200 3 10 (1 # 10))
      as [[van df] | e] eqn:E.
    + exists van, df. split; [ reflexivity | ]. apply H2.
    + discriminate E.
  - destruct (calcular_opcion_3_dolar 1200 3 950 5 (1 # 10))
      as [[van df] | e] eqn:E.
    + exists van, df. split; [ reflexivity | ]. apply H3d.
    + discriminate E.
Defined.

(** ** The NPV is the sum of the present-value column *)

Lemma Qabs_tolerance (a b : Q) :
  a == b -> Qabs (a - b) <= (1 # 1000000000) * Qabs b.
Proof.
  intros H.
  assert (E : a - b == 0) by (rewrite H; ring).
  rewrite E. simpl Qabs.
  apply Qmult_le_0_compat; [ discriminate | apply Qabs_nonneg ].
Qed.

(** C5.  For each of the three options, the NPV that is returned equals the
    sum of the present values of the rows returned with it, hence also
    within a relative tolerance of 1e-9; options 2 and 3 return unless a
    division by zero occurs (zero periods, zero initial exchange rate, or
    [1 + r] zero). *)
Theorem van_is_sum_of_present_values (P : Q) (N : Z) (desc tc i d r : Q) :
  (let '(van, df) := calcular_opcion_1_contado P desc in
   van == suma (map Valor_Actual df) /\
   Qabs (van - suma (map Valor_Actual df))
   <= (1 # 1000000000) * Qabs (suma (map Valor_Actual df))) /\
  match calcular_opcion_2_inflacion P N i r with
  | OK (van, df) =>
      van == suma (map Valor_Actual df) /\
      Qabs (van - suma (map Valor_Actual df))
      <= (1 # 1000000000) * Qabs (suma (map Valor_Actual df))
  | Err e => e = ZeroDivisionError /\ (N = 0%Z \/ 1 + r == 0)
  end /\
  match calcular_opcion_3_dolar P N tc d r with
  | OK (van, df) =>
      van == suma (map Valor_Actual_d df) /\
      Qabs (van - suma (map Valor_Actual_d df))
      <= (1 # 1000000000) * Qabs (suma (map Valor_Actual_d df))
  | Err e =>
      e = ZeroDivisionError /\ (tc == 0 \/ N = 0%Z \/ 1 + r == 0)
  end.
Proof.
  split; [ | split ].
  - cbn [calcular_opcion_1_contado].
    assert (E : forall x : Q, x == suma (map Valor_Actual [ mk_fila 0 x x ])).
    { intros x. unfold suma. simpl. ring. }
    split; [ apply E | apply Qabs_tolerance, E ].
  - destruct (Z.eq_dec N 0) as [-> | HN].
    { rewrite calcular_opcion_2_inflacion_plazo_0.
      split; [ reflexivity | now left ]. }
    destruct (Qeq_dec (1 + r) 0) as [Hr | Hr].
    + destruct (Z_lt_le_dec N 0) as [Hneg | Hpos].
      * rewrite calcular_opcion_2_inflacion_plazo_neg by exact Hneg.
        split; [ reflexivity | apply Qabs_tolerance; reflexivity ].
      * rewrite calcular_opcion_2_inflacion_tasa by (assumption || lia).
        split; [ reflexivity | now right ].
    + rewrite calcular_opcion_2_inflacion_ok by assumption.
      split; [ reflexivity | apply Qabs_tolerance; reflexivity ].
  - destruct (Qeq_dec tc 0) as [Htc | Htc].
    { rewrite calcular_opcion_3_dolar_tc_0 by assumption.
      split; [ reflexivity | now left ]. }
    destruct (Z.eq_dec N 0) as [-> | HN].
    { rewrite calcular_opcion_3_dolar_plazo_0.
      split; [ reflexivity | right; now left ]. }
    destruct (Qeq_dec (1 + r) 0) as [Hr | Hr].
    + destruct (Z_lt_le_dec N 0) as [Hneg | Hpos].
      * rewrite calcular_opcion_3_dolar_plazo_neg by assumption.
        split; [ reflexivity | apply Qabs_tolerance; reflexivity ].
      * rewrite calcular_opcion_3_dolar_tasa by (assumption || lia).
        split; [ reflexivity | right; now right ].
    + rewrite calcular_opcion_3_dolar_ok by assumption.
      split; [ reflexivity | apply Qabs_tolerance; reflexivity ].
Qed.

(** ** The schedules of options 2 and 3 *)

(** C2 (as amended).  With [N >= 1] and [1 + r] not zero, option 2 returns
    a schedule that has, for each month [m] in 1..N, a row whose cash flow
    is [(P/N) * (1 + i/100)^m], computed from the constant base [P/N], and
    whose present value is that cash flow divided by [(1 + r)^m]; the NPV
    is the sum of those present values. *)
Theorem inflacion_schedule (P : Q) (N : Z) (i r : Q) :
  (1 <= N)%Z -> ~ 1 + r == 0 ->
  exists (van : Q) (df : list fila),
    calcular_opcion_2_inflacion P N i r = OK (van, df) /\
    List.length df = Z.to_nat N /\
    (forall m : Z, (1 <= m <= N)%Z ->
       exists row : fila,
         nth_error df (Z.to_nat (m - 1)) = Some row /\
         Mes row = m /\
         Flujo_de_Caja row == (P / inject_Z N) * (1 + i / 100) ^ m /\
         Valor_Actual row == Flujo_de_Caja row / (1 + r) ^ m) /\
    van == suma (map Valor_Actual df) /\
    van == suma (map (fun m => (P / inject_Z N) * (1 + i / 100) ^ m
                               / (1 + r) ^ m)
                   (py_range 1 (N + 1))).
Proof.
  intros HN Hr.
  eexists. eexists. split.
  { apply calcular_opcion_2_inflacion_ok; [ lia | exact Hr ]. }
  split; [ rewrite length_map, py_range_length; f_equal; lia | ].
  split; [ | split ].
  - intros m Hm.
    exists (fila_inflacion (P / inject_Z N) (i / 100) r m).
    split; [ | repeat split; reflexivity ].
    rewrite nth_error_map, py_range_nth_error by lia.
    replace (1 + Z.of_nat (Z.to_nat (m - 1)))%Z with m by lia.
    reflexivity.
  - reflexivity.
  - rewrite map_map. reflexivity.
Qed.

Lemma inflacion_schedule_witness :
  (1 <= 3)%Z /\ ~ 1 + (1 # 10) == 0 /\
  exists (van : Q) (df : list fila),
    calcular_opcion_2_inflacion 1200 3 10 (1 # 10) = OK (van, df) /\
    van == 1200.
Proof.
  assert (H3 : (1 <= 3)%Z) by lia.
  assert (Hr : ~ 1 + (1 # 10) == 0) by discriminate.
  split; [ exact H3 | split; [ exact Hr | ] ].
  destruct (inflacion_schedule 1200 3 10 (1 # 10) H3 Hr)
    as [van [df [E [_ [_ [_ Hsum]]]]]].
  exists van, df. split; [ exact E | ].
  rewrite Hsum. reflexivity.
Defined.

(** With [N >= 1] and a discount rate of -1, the division by
    [(1 + r)^1 = 0] in the first turn of the loop raises: option 2 produces
    no schedule and no NPV. *)
Lemma inflacion_tasa_menos_uno_counterexample :
  0 <= 1000000 /\ (1 <= 12)%Z /\ 0 <= 9 /\
  calcular_opcion_2_inflacion 1000000 12 9 (-1) = Err ZeroDivisionError /\
  ~ (exists (van : Q) (df : list fila),
       calcular_opcion_2_inflacion 1000000 12 9 (-1) = OK (van, df)).
Proof.
  assert (E : calcular_opcion_2_inflacion 1000000 12 9 (-1)
              = Err ZeroDivisionError) by reflexivity.
  repeat split; try discriminate; try exact E.
  intros [van [df H]]. rewrite E in H. discriminate H.
Qed.

(** C3 (as amended).  With [N >= 1], a nonzero initial exchange rate and
    [1 + r] not zero, option 3 returns a schedule that has, for each month
    [m] in 1..N, a row whose projected rate is [tc * (1 + d/100)^m], whose
    cash flow is the constant foreign installment [P/tc/N] times that rate,
    and whose present value is that cash flow divided by [(1 + r)^m]; the
    NPV is the sum of those present values. *)
Theorem dolar_schedule (P : Q) (N : Z) (tc d r : Q) :
  (1 <= N)%Z -> ~ tc == 0 -> ~ 1 + r == 0 ->
  exists (van : Q) (df : list fila_dolar),
    calcular_opcion_3_dolar P N tc d r = OK (van, df) /\
    List.length df = Z.to_nat N /\
    (forall m : Z, (1 <= m <= N)%Z ->
       exists row : fila_dolar,
         nth_error df (Z.to_nat (m - 1)) = Some row /\
         Mes_d row = m /\
         TC_Proyectado row == tc * (1 + d / 100) ^ m /\
         Flujo_de_Caja_d row == (P / tc / inject_Z N) * TC_Proyectado row /\
         Valor_Actual_d row == Flujo_de_Caja_d row / (1 + r) ^ m) /\
    van == suma (map Valor_Actual_d df) /\
    van == suma (map (fun m => (P / tc / inject_Z N)
                               * (tc * (1 + d / 100) ^ m) / (1 + r) ^ m)
                   (py_range 1 (N + 1))).
Proof.
  intros HN Htc Hr.
  eexists. eexists. split.
  { apply calcular_opcion_3_dolar_ok; [ exact Htc | lia | exact Hr ]. }
  split; [ rewrite length_map, py_range_length; f_equal; lia | ].
  split; [ | split ].
  - intros m Hm.
    exists (fila_dolar_mes (P / tc / inject_Z N) tc (d / 100) r m).
    split; [ | repeat split; reflexivity ].
    rewrite nth_error_map, py_range_nth_error by lia.
    replace (1 + Z.of_nat (Z.to_nat (m - 1)))%Z with m by lia.
    reflexivity.
  - reflexivity.
  - rewrite map_map. reflexivity.
Qed.

Lemma dolar_schedule_witness :
  (1 <= 2)%Z /\ ~ 950 == 0 /\ ~ 1 + (1 # 20) == 0 /\
  exists (van : Q) (df : list fila_dolar),
    calcular_opcion_3_dolar 1900 2 950 5 (1 # 20) = OK (van, df) /\
    van == 1900.
Proof.
  assert (H2 : (1 <= 2)%Z) by lia.
  assert (Htc : ~ 950 == 0) by discriminate.
  assert (Hr : ~ 1 + (1 # 20) == 0) by discriminate.
  split; [ exact H2 | split; [ exact Htc | split; [ exact Hr | ] ] ].
  destruct (dolar_schedule 1900 2 950 5 (1 # 20) H2 Htc Hr)
    as [van [df [E [_ [_ [_ Hsum]]]]]].
  exists van, df. split; [ exact E | ].
  rewrite Hsum. reflexivity.
Defined.

(** With [N >= 1], [tc > 0] and a discount rate of -1, option 3 raises in
    the first turn of its loop and produces no schedule and no NPV. *)
Lemma dolar_tasa_menos_uno_counterexample :
  0 <= 1000000 /\ (1 <= 12)%Z /\ 0 < 950 /\ 0 <= 5 /\
  calcular_opcion_3_dolar 1000000 12 950 5 (-1) = Err ZeroDivisionError /\
  ~ (exists (van : Q) (df : list fila_dolar),
       calcular_opcion_3_dolar 1000000 12 950 5 (-1) = OK (van, df)).
Proof.
  assert (E : calcular_opcion_3_dolar 1000000 12 950 5 (-1)
              = Err ZeroDivisionError) by reflexivity.
  repeat split; try discriminate; try exact E.
  intros [van [df H]]. rewrite E in H. discriminate H.
Qed.

(** ** Zero inflation: the annuity *)

(** The discount factors of months 1..n add up to the annuity factor. *)
Lemma suma_discount_factors (r : Q) (n : nat) :
  ~ 1 + r == 0 -> ~ r == 0 ->
  suma (map (fun m => / (1 + r) ^ m) (py_range 1 (Z.of_nat n + 1)))
  == (1 - (1 + r) ^ (- Z.of_nat n)) / r.
Proof.
  intros Hx Hr.
  induction n as [ | n IH ].
  - simpl. unfold suma. simpl. field. exact Hr.
  - rewrite Nat2Z.inj_succ. unfold Z.succ.
    rewrite py_range_snoc by lia.
    rewrite map_app, suma_app, IH. cbn [map].
    rewrite suma_cons.
    assert (Hy : ~ (1 + r) ^ Z.of_nat n == 0) by now apply Qpower_not_0.
    rewrite !Qpower_opp, Qpower_plus by exact Hx.
    rewrite Qpower_1_r.
    set (y := (1 + r) ^ Z.of_nat n) in *.
    unfold suma. simpl. field. repeat split; assumption.
Qed.

(** A constant column of length [n] adds up to [n] times the constant. *)
Lemma suma_constant (c : Q) (n : nat) :
  suma (map (fun _ : Z => c) (py_range 1 (Z.of_nat n + 1)))
  == inject_Z (Z.of_nat n) * c.
Proof.
  induction n as [ | n IH ].
  - simpl. unfold suma. simpl. ring.
  - rewrite Nat2Z.inj_succ. unfold Z.succ.
    rewrite py_range_snoc by lia.
    rewrite map_app, suma_app, IH. cbn [map]. rewrite suma_cons.
    rewrite inject_Z_plus. unfold suma. simpl. ring.
Qed.

Lemma suma_discount_factors_Z (r : Q) (N : Z) :
  (0 <= N)%Z -> ~ 1 + r == 0 -> ~ r == 0 ->
  suma (map (fun m => / (1 + r) ^ m) (py_range 1 (N + 1)))
  == (1 - (1 + r) ^ (- N)) / r.
Proof.
  intros HN. rewrite <- (Z2Nat.id N HN). apply suma_discount_factors.
Qed.

Lemma suma_constant_Z (c : Q) (N : Z) :
  (0 <= N)%Z ->
  suma (map (fun _ : Z => c) (py_range 1 (N + 1))) == inject_Z N * c.
Proof.
  intros HN. rewrite <- (Z2Nat.id N HN). apply suma_constant.
Qed.

(** The terms of option 2 at zero inflation are the base installment times
    the discount factor of the month. *)
Lemma suma_inflacion_cero (P : Q) (N : Z) (r : Q) :
  ~ 1 + r == 0 ->
  suma (map Valor_Actual
          (map (fila_inflacion (P / inject_Z N) (0 / 100) r)
             (py_range 1 (N + 1))))
  == (P / inject_Z N)
     * suma (map (fun m => / (1 + r) ^ m) (py_range 1 (N + 1))).
Proof.
  intros Hx. rewrite map_map, <- suma_map_scale.
  apply suma_map_ext. intros m _.
  unfold fila_inflacion, py_pow. cbn [Valor_Actual].
  assert (E : 1 + 0 / 100 == 1) by reflexivity.
  rewrite E, Qpower_1.
  generalize (P / inject_Z N). intros c.
  field. now apply Qpower_not_0.
Qed.

(** C8 (as amended).  With [N >= 1] and [1 + r] not zero, the NPV of
    option 2 at zero inflation is the present value of [N] installments of
    [P/N] discounted at [r]: the closed form
    [(P/N) * (1 - (1+r)^(-N)) / r] when [r] is not zero, and [P] when [r]
    is zero. *)
Theorem inflacion_cero_annuity (P : Q) (N : Z) (r : Q) :
  (1 <= N)%Z -> ~ 1 + r == 0 ->
  exists (van : Q) (df : list fila),
    calcular_opcion_2_inflacion P N 0 r = OK (van, df) /\
    van == suma (map (fun m => P / inject_Z N / (1 + r) ^ m)
                   (py_range 1 (N + 1))) /\
    (~ r == 0 -> van == (P / inject_Z N) * (1 - (1 + r) ^ (- N)) / r) /\
    (r == 0 -> van == P).
Proof.
  intros HN Hx.
  assert (HNq : ~ inject_Z N == 0) by (rewrite inject_Z_zero; lia).
  eexists. eexists. split.
  { apply calcular_opcion_2_inflacion_ok; [ lia | exact Hx ]. }
  rewrite suma_inflacion_cero by exact Hx.
  split; [ | split ].
  - rewrite <- suma_map_scale. apply suma_map_ext. intros m _.
    field. split; first [ exact HNq | now apply Qpower_not_0 ].
  - intros Hr.
    rewrite suma_discount_factors_Z by (assumption || lia).
    field. split; assumption.
  - intros Hr.
    rewrite (suma_map_ext _ (fun _ => 1)).
    + rewrite suma_constant_Z by lia.
      field. exact HNq.
    + intros m _. rewrite Hr.
      assert (E : 1 + 0 == 1) by reflexivity.
      rewrite E, Qpower_1. reflexivity.
Qed.

Lemma inflacion_cero_annuity_witness :
  (1 <= 2)%Z /\ ~ 1 + 1 == 0 /\
  exists (van : Q) (df : list fila),
    calcular_opcion_2_inflacion 800 2 0 1 = OK (van, df) /\ van == 300.
Proof.
  assert (H2 : (1 <= 2)%Z) by lia.
  assert (Hx : ~ 1 + 1 == 0) by discriminate.
  split; [ exact H2 | split; [ exact Hx | ] ].
  destruct (inflacion_cero_annuity 800 2 1 H2 Hx)
    as [van [df [E [_ [Hclosed _]]]]].
  exists van, df. split; [ exact E | ].
  rewrite Hclosed by discriminate. reflexivity.
Defined.

(** With a discount rate of -1 (which is not zero), option 2 at zero
    inflation raises instead of returning an NPV. *)
Lemma inflacion_cero_tasa_menos_uno_counterexample :
  0 <= 1200 /\ (1 <= 3)%Z /\ ~ -1 == 0 /\
  calcular_opcion_2_inflacion 1200 3 0 (-1) = Err ZeroDivisionError /\
  ~ (exists (van : Q) (df : list fila),
       calcular_opcion_2_inflacion 1200 3 0 (-1) = OK (van, df) /\
       van == (1200 / inject_Z 3) * (1 - (1 + -1) ^ (- 3)) / -1).
Proof.
  assert (E : calcular_opcion_2_inflacion 1200 3 0 (-1)
              = Err ZeroDivisionError) by reflexivity.
  repeat split; try discriminate; try exact E.
  intros [van [df [H _]]]. rewrite E in H. discriminate H.
Qed.

(** ** Monotonicity in the inflation rate *)

Lemma Qpower_lt_base_nat (a b : Q) (n : nat) :
  0 <= a -> a < b -> a ^ Z.of_nat (S n) < b ^ Z.of_nat (S n).
Proof.
  intros Ha Hab.
  induction n as [ | n IH ].
  - simpl. exact Hab.
  - rewrite (Nat2Z.inj_succ (S n)). unfold Z.succ.
    rewrite !Qpower_plus' by lia. rewrite !Qpower_1_r.
    assert (Hak : 0 <= a ^ Z.of_nat (S n)) by now apply Qpower_0_le.
    apply Qle_lt_trans with (b ^ Z.of_nat (S n) * a).
    + apply Qmult_le_compat_r; [ now apply Qlt_le_weak | exact Ha ].
    + apply Qmult_lt_l; [ | exact Hab ].
      apply Qle_lt_trans with (a ^ Z.of_nat (S n)); assumption.
Qed.

Lemma Qpower_lt_base (a b : Q) (m : Z) :
  (1 <= m)%Z -> 0 <= a -> a < b -> a ^ m < b ^ m.
Proof.
  intros Hm Ha Hab.
  replace m with (Z.of_nat (S (Z.to_nat (m - 1)))) by lia.
  now apply Qpower_lt_base_nat.
Qed.

(** C7 (as amended).  With [P > 0], [N >= 1] and [1 + r > 0], the NPV of
    option 2 is strictly increasing in the inflation rate: for
    [0 <= i < i'] both evaluations return and the second NPV is strictly
    greater. *)
Theorem inflacion_npv_strictly_increasing (P : Q) (N : Z) (i i' r : Q) :
  0 < P -> (1 <= N)%Z -> 0 < 1 + r -> 0 <= i -> i < i' ->
  exists (van van' : Q) (df df' : list fila),
    calcular_opcion_2_inflacion P N i r = OK (van, df) /\
    calcular_opcion_2_inflacion P N i' r = OK (van', df') /\
    van < van'.
Proof.
  intros HP HN Hx Hi Hii.
  assert (Hx0 : ~ 1 + r == 0) by (intros E; rewrite E in Hx; discriminate).
  do 4 eexists.
  split; [ apply calcular_opcion_2_inflacion_ok; [ lia | exact Hx0 ] | ].
  split; [ apply calcular_opcion_2_inflacion_ok; [ lia | exact Hx0 ] | ].
  rewrite !map_map. apply suma_map_lt.
  - rewrite py_range_cons by lia. discriminate.
  - intros m Hm. apply py_range_In in Hm.
    unfold fila_inflacion, py_pow. cbn [Valor_Actual].
    assert (Hbase : 0 < P / inject_Z N).
    { apply Qlt_shift_div_l; [ | now rewrite Qmult_0_l ].
      unfold Qlt, inject_Z. simpl. lia. }
    assert (Hy : 0 < / (1 + r) ^ m).
    { apply Qinv_lt_0_compat. now apply Qpower_0_lt. }
    unfold Qdiv at 1 3.
    apply Qmult_lt_compat_r; [ exact Hy | ].
    apply Qmult_lt_l; [ exact Hbase | ].
    apply Qpower_lt_base; [ lia | | ].
    + apply Qle_trans with 1; [ discriminate | ].
      rewrite <- (Qplus_0_r 1) at 1. apply Qplus_le_r.
      apply Qle_shift_div_l; [ reflexivity | now rewrite Qmult_0_l ].
    + apply Qplus_lt_r. unfold Qdiv.
      apply Qmult_lt_compat_r; [ reflexivity | exact Hii ].
Qed.

Lemma inflacion_npv_strictly_increasing_witness :
  0 < 1200 /\ (1 <= 3)%Z /\ 0 < 1 + (1 # 10) /\ 0 <= 5 /\ 5 < 10 /\
  exists (van van' : Q) (df df' : list fila),
    calcular_opcion_2_inflacion 1200 3 5 (1 # 10) = OK (van, df) /\
    calcular_opcion_2_inflacion 1200 3 10 (1 # 10) = OK (van', df') /\
    van < van'.
Proof.
  assert (HP : 0 < 1200) by reflexivity.
  assert (HN : (1 <= 3)%Z) by lia.
  assert (Hx : 0 < 1 + (1 # 10)) by reflexivity.
  assert (Hi : 0 <= 5) by discriminate.
  assert (Hii : 5 < 10) by reflexivity.
  repeat (split; [ assumption | ]).
  exact (inflacion_npv_strictly_increasing 1200 3 5 10 (1 # 10)
           HP HN Hx Hi Hii).
Defined.

(** Two inputs at which a larger inflation rate does not give a larger NPV:
    a zero principal (both NPVs are 0), and a discount rate of -2, where the
    single installment is divided by -1. *)
Lemma inflacion_npv_not_increasing_counterexample :
  (0 <= 0 /\ (1 <= 3)%Z /\ 0 <= 5 /\ 5 < 10 /\
   exists (van van' : Q) (df df' : list fila),
     calcular_opcion_2_inflacion 0 3 5 (1 # 10) = OK (van, df) /\
     calcular_opcion_2_inflacion 0 3 10 (1 # 10) = OK (van', df') /\
     van == 0 /\ van' == 0 /\ ~ van < van') /\
  (0 <= 1200 /\ (1 <= 1)%Z /\ 0 <= 0 /\ 0 < 100 /\
   exists (van van' : Q) (df df' : list fila),
     calcular_opcion_2_inflacion 1200 1 0 (-2) = OK (van, df) /\
     calcular_opcion_2_inflacion 1200 1 100 (-2) = OK (van', df') /\
     van == -1200 /\ van' == -2400 /\ ~ van < van').
Proof.
  split.
  - repeat (split; [ first [ discriminate | reflexivity | lia ] | ]).
    do 4 eexists.
    split; [ reflexivity | split; [ reflexivity | ] ].
    split; [ reflexivity | split; [ reflexivity | ] ].
    apply Qle_not_lt. discriminate.
  - repeat (split; [ first [ discriminate | reflexivity | lia ] | ]).
    do 4 eexists.
    split; [ reflexivity | split; [ reflexivity | ] ].
    split; [ reflexivity | split; [ reflexivity | ] ].
    apply Qle_not_lt. discriminate.
Qed.

(** ** Option 3 does not depend on the initial exchange rate *)

Lemma Forall2_map_pointwise {A B C : Type} (R : B -> C -> Prop)
  (f : A -> B) (g : A -> C) (xs : list A) :
  (forall x, In x xs -> R (f x) (g x)) ->
  Forall2 R (map f xs) (map g xs).
Proof.
  induction xs as [ | x xs IH ]; intros H; simpl; constructor.
  - apply H. now left.
  - apply IH. intros y Hy. apply H. now right.
Qed.

(** The local-currency installment of option 3 is the one of option 2. *)
Lemma cuota_en_ars_is_cuota_ajustada (P : Q) (N : Z) (tc x : Q) :
  ~ tc == 0 ->
  (P / tc / inject_Z N) * (tc * x) == (P / inject_Z N) * x.
Proof.
  intros Htc. unfold Qdiv.
  generalize (/ inject_Z N). intros c. field. exact Htc.
Qed.

Lemma fila_dolar_is_fila_inflacion (P : Q) (N : Z) (tc d r : Q) (m : Z) :
  ~ tc == 0 ->
  misma_fila (fila_dolar_mes (P / tc / inject_Z N) tc d r m)
             (fila_inflacion (P / inject_Z N) d r m).
Proof.
  intros Htc. unfold misma_fila, fila_dolar_mes, fila_inflacion.
  cbn [Mes_d Flujo_de_Caja_d Valor_Actual_d Mes Flujo_de_Caja Valor_Actual].
  split; [ reflexivity | ].
  rewrite (cuota_en_ars_is_cuota_ajustada P N tc _ Htc).
  split; reflexivity.
Qed.

Lemma fila_dolar_tc_irrelevant (P : Q) (N : Z) (tc tc' d r : Q) (m : Z) :
  ~ tc == 0 -> ~ tc' == 0 ->
  misma_fila_dolar (fila_dolar_mes (P / tc / inject_Z N) tc d r m)
                   (fila_dolar_mes (P / tc' / inject_Z N) tc' d r m).
Proof.
  intros Htc Htc'. unfold misma_fila_dolar, fila_dolar_mes.
  cbn [Mes_d Flujo_de_Caja_d Valor_Actual_d].
  split; [ reflexivity | ].
  rewrite (cuota_en_ars_is_cuota_ajustada P N tc _ Htc).
  rewrite (cuota_en_ars_is_cuota_ajustada P N tc' _ Htc').
  split; reflexivity.
Qed.

(** C10.  For nonzero (in particular positive) initial exchange rates [tc]
    and [tc'], the two evaluations of option 3 and the evaluation of
    option 2 at the same monthly rate either all raise the same exception
    or all return; when they return, the two option-3 schedules agree row
    by row on month, cash flow and present value, each agrees with the
    option-2 schedule, and the three NPVs are equal.  They return whenever
    [N >= 1] and [1 + r] is not zero. *)
Theorem dolar_independent_of_tc (P : Q) (N : Z) (tc tc' d r : Q) :
  0 < tc -> 0 < tc' ->
  match calcular_opcion_3_dolar P N tc d r,
        calcular_opcion_3_dolar P N tc' d r,
        calcular_opcion_2_inflacion P N d r with
  | OK (van, df), OK (van', df'), OK (van2, df2) =>
      van == van' /\ van == van2 /\
      Forall2 misma_fila_dolar df df' /\
      Forall2 misma_fila df df2 /\
      ((N < 0)%Z \/ ((1 <= N)%Z /\ ~ 1 + r == 0))
  | Err e, Err e', Err e2 =>
      e = e' /\ e = e2 /\ (N = 0%Z \/ 1 + r == 0)
  | _, _, _ => False
  end.
Proof.
  intros Hpos Hpos'.
  assert (Htc : ~ tc == 0) by (intros E; rewrite E in Hpos; discriminate).
  assert (Htc' : ~ tc' == 0) by (intros E; rewrite E in Hpos'; discriminate).
  destruct (Z.eq_dec N 0) as [-> | HN].
  { rewrite !calcular_opcion_3_dolar_plazo_0,
      calcular_opcion_2_inflacion_plazo_0.
    repeat split; now left. }
  destruct (Z_lt_le_dec N 0) as [Hneg | Hge].
  { rewrite !calcular_opcion_3_dolar_plazo_neg by assumption.
    rewrite calcular_opcion_2_inflacion_plazo_neg by assumption.
    repeat split; try reflexivity; try constructor. exact Hneg. }
  destruct (Qeq_dec (1 + r) 0) as [Hr | Hr].
  { rewrite !calcular_opcion_3_dolar_tasa by (assumption || lia).
    rewrite calcular_opcion_2_inflacion_tasa by (assumption || lia).
    repeat split; now right. }
  rewrite !calcular_opcion_3_dolar_ok by assumption.
  rewrite calcular_opcion_2_inflacion_ok by assumption.
  split; [ | split; [ | split; [ | split ] ] ].
  - rewrite !map_map. apply suma_map_ext. intros m _.
    now apply fila_dolar_tc_irrelevant.
  - rewrite !map_map. apply suma_map_ext. intros m _.
    now apply fila_dolar_is_fila_inflacion.
  - apply Forall2_map_pointwise. intros m _.
    now apply fila_dolar_tc_irrelevant.
  - apply Forall2_map_pointwise. intros m _.
    now apply fila_dolar_is_fila_inflacion.
  - right. split; [ lia | exact Hr ].
Qed.

Lemma dolar_independent_of_tc_witness :
  0 < 950 /\ 0 < 1000 /\
  exists (van van' van2 : Q) (df df' : list fila_dolar) (df2 : list fila),
    calcular_opcion_3_dolar 1900 2 950 5 (1 # 20) = OK (van, df) /\
    calcular_opcion_3_dolar 1900 2 1000 5 (1 # 20) = OK (van', df') /\
    calcular_opcion_2_inflacion 1900 2 5 (1 # 20) = OK (van2, df2) /\
    van == van' /\ van == van2.
Proof.
  assert (H950 : 0 < 950) by reflexivity.
  assert (H1000 : 0 < 1000) by reflexivity.
  split; [ exact H950 | split; [ exact H1000 | ] ].
  pose proof (dolar_independent_of_tc 1900 2 950 1000 5 (1 # 20) H950 H1000)
    as H.
  destruct (calcular_opcion_3_dolar 1900 2 950 5 (1 # 20))
    as [[van df] | e] eqn:E; [ | discriminate E ].
  destruct (calcular_opcion_3_dolar 1900 2 1000 5 (1 # 20))
    as [[van' df'] | e'] eqn:E'; [ | discriminate E' ].
  destruct (calcular_opcion_2_inflacion 1900 2 5 (1 # 20))
    as [[van2 df2] | e2] eqn:E2; [ | discriminate E2 ].
  exists van, van', van2, df, df', df2.
  destruct H as [H1 [H2 _]].
  repeat split; assumption.
Defined.

(** ** Invalid inputs *)

(** C6 (as amended).  The evaluations validate nothing.  Option 2 raises
    [ZeroDivisionError] when the number of periods is 0, returns an NPV of
    0 with an empty schedule when it is negative, raises
    [ZeroDivisionError] when it is positive and [1 + r] is zero, and
    otherwise evaluates its formulas, whatever the sign of the principal.
    Option 3 first raises [ZeroDivisionError] when the initial exchange
    rate is zero and then behaves likewise, whatever the sign of the
    exchange rate.  Option 1 cannot raise.  [max] over an empty mapping
    raises [ValueError]. *)
Theorem evaluations_do_not_validate (P : Q) (N : Z) (desc tc i d r : Q) :
  calcular_opcion_2_inflacion P N i r
  = (if (N =? 0)%Z then Err ZeroDivisionError
     else if (N <? 0)%Z then OK (0, [])
     else if Qeq_bool (1 + r) 0 then Err ZeroDivisionError
     else
       let df := map (fila_inflacion (P / inject_Z N) (i / 100) r)
                     (py_range 1 (N + 1)) in
       OK (suma (map Valor_Actual df), df)) /\
  calcular_opcion_3_dolar P N tc d r
  = (if Qeq_bool tc 0 then Err ZeroDivisionError
     else if (N =? 0)%Z then Err ZeroDivisionError
     else if (N <? 0)%Z then OK (0, [])
     else if Qeq_bool (1 + r) 0 then Err ZeroDivisionError
     else
       let df := map (fila_dolar_mes (P / tc / inject_Z N) tc (d / 100) r)
                     (py_range 1 (N + 1)) in
       OK (suma (map Valor_Actual_d df), df)) /\
  calcular_opcion_1_contado P desc
  = (P * (1 - desc / 100),
     [ mk_fila 0 (P * (1 - desc / 100)) (P * (1 - desc / 100)) ]) /\
  py_max (get []) (keys []) = Err ValueError.
Proof.
  split; [ | split; [ | split; reflexivity ] ].
  - destruct (Z.eqb_spec N 0) as [-> | HN].
    { apply calcular_opcion_2_inflacion_plazo_0. }
    destruct (Z.ltb_spec N 0) as [Hneg | Hge].
    { now apply calcular_opcion_2_inflacion_plazo_neg. }
    destruct (Qeq_bool (1 + r) 0) eqn:Er.
    + apply Qeq_bool_iff in Er.
      apply calcular_opcion_2_inflacion_tasa; [ lia | exact Er ].
    + apply Qeq_bool_neq in Er.
      now apply calcular_opcion_2_inflacion_ok.
  - destruct (Qeq_bool tc 0) eqn:Etc.
    { apply Qeq_bool_iff in Etc.
      now apply calcular_opcion_3_dolar_tc_0. }
    apply Qeq_bool_neq in Etc.
    destruct (Z.eqb_spec N 0) as [-> | HN].
    { apply calcular_opcion_3_dolar_plazo_0. }
    destruct (Z.ltb_spec N 0) as [Hneg | Hge].
    { now apply calcular_opcion_3_dolar_plazo_neg. }
    destruct (Qeq_bool (1 + r) 0) eqn:Er.
    + apply Qeq_bool_iff in Er.
      apply calcular_opcion_3_dolar_tasa; [ lia | exact Er ].
    + apply Qeq_bool_neq in Er.
      now apply calcular_opcion_3_dolar_ok.
Qed.

(** Inputs that violate the stated preconditions and raise nothing: a
    negative number of periods, a negative initial exchange rate and a
    negative principal are evaluated without any exception. *)
Lemma invalid_inputs_accepted_counterexample :
  ((-3 < 1)%Z /\
   calcular_opcion_2_inflacion 1000000 (-3) 9 (1 # 20) = OK (0, [])) /\
  ((-3 < 1)%Z /\
   calcular_opcion_3_dolar 1000000 (-3) 950 5 (1 # 20) = OK (0, [])) /\
  (-950 <= 0 /\
   exists (van : Q) (df : list fila_dolar),
     calcular_opcion_3_dolar 1200 3 (-950) 0 0 = OK (van, df) /\
     van == 1200) /\
  (-1200 < 0 /\
   exists (van : Q) (df : list fila),
     calcular_opcion_2_inflacion (-1200) 3 0 0 = OK (van, df) /\
     van == -1200) /\
  (-1000000 < 0 /\
   fst (calcular_opcion_1_contado (-1000000) 7) == -930000).
Proof.
  repeat split; try reflexivity; try discriminate.
  - do 2 eexists. split; reflexivity.
  - do 2 eexists. split; reflexivity.
Qed.

(** * Further properties of the evaluations *)

(** ** Sums and powers *)

Lemma suma_map_le {A : Type} (f g : A -> Q) (xs : list A) :
  (forall x, In x xs -> f x <= g x) ->
  suma (map f xs) <= suma (map g xs).
Proof.
  induction xs as [ | x xs IH ]; intros H; simpl.
  - apply Qle_refl.
  - rewrite !suma_cons.
    apply Qplus_le_compat; [ apply H; now left | ].
    apply IH. intros y Hy. apply H. now right.
Qed.

Lemma suma_map_nonneg {A : Type} (f : A -> Q) (xs : list A) :
  (forall x, In x xs -> 0 <= f x) -> 0 <= suma (map f xs).
Proof.
  induction xs as [ | x xs IH ]; intros H; simpl.
  - apply Qle_refl.
  - rewrite suma_cons.
    assert (Hx : 0 <= f x) by (apply H; now left).
    assert (Hs : 0 <= suma (map f xs)).
    { apply IH. intros y Hy. apply H. now right. }
    lra.
Qed.

Lemma Qpower_le_base (a b : Q) (m : Z) :
  (0 <= m)%Z -> 0 <= a -> a <= b -> a ^ m <= b ^ m.
Proof.
  intros Hm Ha Hab.
  destruct (Z.eq_dec m 0) as [-> | Hm0]; [ apply Qle_refl | ].
  destruct (Qeq_dec a b) as [E | E].
  - rewrite E. apply Qle_refl.
  - apply Qlt_le_weak, Qpower_lt_base; [ lia | exact Ha | ].
    apply Qnot_le_lt. intros Hba. apply E. now apply Qle_antisym.
Qed.

Lemma uno_mas_pct_nonneg (i : Q) : 0 <= i -> 1 <= 1 + i / 100.
Proof.
  intros Hi.
  assert (H : 0 <= i / 100).
  { apply Qle_shift_div_l; [ reflexivity | now rewrite Qmult_0_l ]. }
  lra.
Qed.

Lemma pct_lt (i i' : Q) : i < i' -> 1 + i / 100 < 1 + i' / 100.
Proof.
  intros H. apply Qplus_lt_r. unfold Qdiv.
  apply Qmult_lt_compat_r; [ reflexivity | exact H ].
Qed.

Lemma pct_le (i i' : Q) : i <= i' -> 1 + i / 100 <= 1 + i' / 100.
Proof.
  intros H. apply Qplus_le_r. unfold Qdiv.
  apply Qmult_le_compat_r; [ exact H | discriminate ].
Qed.

Lemma cuota_base_pos (P : Q) (N : Z) :
  0 < P -> (1 <= N)%Z -> 0 < P / inject_Z N.
Proof.
  intros HP HN.
  apply Qlt_shift_div_l; [ | now rewrite Qmult_0_l ].
  unfold Qlt, inject_Z. simpl. lia.
Qed.

Lemma cuota_base_nonneg (P : Q) (N : Z) :
  0 <= P -> (1 <= N)%Z -> 0 <= P / inject_Z N.
Proof.
  intros HP HN.
  apply Qle_shift_div_l; [ | now rewrite Qmult_0_l ].
  unfold Qlt, inject_Z. simpl. lia.
Qed.

Lemma tasa_no_cero (r : Q) : 0 < 1 + r -> ~ 1 + r == 0.
Proof.
  intros H E. rewrite E in H. discriminate H.
Qed.

Lemma py_range_not_nil (N : Z) : (1 <= N)%Z -> py_range 1 (N + 1) <> [].
Proof.
  intros HN. rewrite py_range_cons by lia. discriminate.
Qed.

(** ** Option 1: the range of the payment *)

(** X1.  For a principal [P >= 0] and discounts [0 <= desc <= desc' <= 100],
    the payment of option 1 lies between 0 and [P], and the larger discount
    gives the smaller (or equal) payment. *)
Theorem contado_between_zero_and_principal (P desc desc' : Q) :
  0 <= P -> 0 <= desc -> desc <= desc' -> desc' <= 100 ->
  0 <= fst (calcular_opcion_1_contado P desc') /\
  fst (calcular_opcion_1_contado P desc')
  <= fst (calcular_opcion_1_contado P desc) /\
  fst (calcular_opcion_1_contado P desc) <= P.
Proof.
  intros HP H0 Hle H100.
  cbn [calcular_opcion_1_contado fst].
  assert (Ha : 0 <= 1 - desc' / 100).
  { assert (desc' / 100 <= 1); [ | lra ].
    apply Qle_shift_div_r; [ reflexivity | lra ]. }
  assert (Hb : 1 - desc' / 100 <= 1 - desc / 100).
  { assert (desc / 100 <= desc' / 100); [ | lra ].
    unfold Qdiv. apply Qmult_le_compat_r; [ exact Hle | discriminate ]. }
  assert (Hc : 1 - desc / 100 <= 1).
  { assert (0 <= desc / 100); [ | lra ].
    apply Qle_shift_div_l; [ reflexivity | lra ]. }
  split; [ | split ].
  - now apply Qmult_le_0_compat.
  - rewrite !(Qmult_comm P). now apply Qmult_le_compat_r.
  - rewrite <- (Qmult_1_r P) at 2.
    rewrite !(Qmult_comm P). now apply Qmult_le_compat_r.
Qed.

Lemma contado_between_zero_and_principal_witness :
  0 <= 1000000 /\ 0 <= 7 /\ 7 <= 25 /\ 25 <= 100 /\
  0 <= fst (calcular_opcion_1_contado 1000000 25) /\
  fst (calcular_opcion_1_contado 1000000 25)
  <= fst (calcular_opcion_1_contado 1000000 7) /\
  fst (calcular_opcion_1_contado 1000000 7) <= 1000000.
Proof.
  assert (HP : 0 <= 1000000) by discriminate.
  assert (H0 : 0 <= 7) by discriminate.
  assert (Hle : 7 <= 25) by discriminate.
  assert (H100 : 25 <= 100) by discriminate.
  split; [ exact HP | split; [ exact H0 | ] ].
  split; [ exact Hle | split; [ exact H100 | ] ].
  exact (contado_between_zero_and_principal 1000000 7 25 HP H0 Hle H100).
Defined.

(** ** The recommendation as a function of the three NPVs *)

Lemma opciones_distintas :
  opcion_1 <> opcion_2 /\ opcion_1 <> opcion_3 /\ opcion_2 <> opcion_3.
Proof.
  repeat split; discriminate.
Qed.

(** The three results of the recommendation, each with its condition. *)
Lemma mejor_opcion_iffs (van1 van2 van3 : Q) :
  (mejor_opcion van1 van2 van3 = OK opcion_1
   <-> van2 <= van1 /\ van3 <= van1) /\
  (mejor_opcion van1 van2 van3 = OK opcion_2
   <-> van1 < van2 /\ van3 <= van2) /\
  (mejor_opcion van1 van2 van3 = OK opcion_3
   <-> van1 < van3 /\ van2 < van3) /\
  (exists k : string,
     mejor_opcion van1 van2 van3 = OK k /\
     In k [ opcion_1; opcion_2; opcion_3 ]).
Proof.
  destruct opciones_distintas as [D12 [D13 D23]].
  rewrite mejor_opcion_cases.
  destruct (py_gt van2 van1) eqn:E21;
    [ destruct (py_gt van3 van2) eqn:E32 | destruct (py_gt van3 van1) eqn:E31 ];
    repeat match goal with
      | H : py_gt _ _ = true |- _ => apply py_gt_true in H
      | H : py_gt _ _ = false |- _ => apply py_gt_false in H
      end;
    (split; [ | split; [ | split ] ]);
    try (split; [ intros H; first [ injection H as H; congruence
                                   | split; lra ]
                | intros [H1 H2]; first [ reflexivity | exfalso; lra ] ]).
  - exists opcion_3. simpl. auto.
  - exists opcion_2. simpl. auto.
  - exists opcion_3. simpl. auto.
  - exists opcion_1. simpl. auto.
Qed.

(** X2.  Option 1 is recommended exactly when its NPV is at least the two
    others, option 2 exactly when its NPV exceeds that of option 1 and is
    at least that of option 3, and option 3 exactly when its NPV exceeds
    both others; no other result, and no exception, is possible. *)
Theorem mejor_opcion_characterisation (van1 van2 van3 : Q) :
  (mejor_opcion van1 van2 van3 = OK opcion_1
   <-> van2 <= van1 /\ van3 <= van1) /\
  (mejor_opcion van1 van2 van3 = OK opcion_2
   <-> van1 < van2 /\ van3 <= van2) /\
  (mejor_opcion van1 van2 van3 = OK opcion_3
   <-> van1 < van3 /\ van2 < van3) /\
  (exists k : string,
     mejor_opcion van1 van2 van3 = OK k /\
     In k [ opcion_1; opcion_2; opcion_3 ]).
Proof.
  exact (mejor_opcion_iffs van1 van2 van3).
Qed.



(** ** The NPVs as multiples of the principal *)

Lemma van_inflacion_factor (P : Q) (N : Z) (inf r : Q) :
  suma (map Valor_Actual
          (map (fila_inflacion (P / inject_Z N) inf r) (py_range 1 (N + 1))))
  == P * suma (map Valor_Actual
                 (map (fila_inflacion (1 / inject_Z N) inf r)
                    (py_range 1 (N + 1)))).
Proof.
  rewrite !map_map, <- suma_map_scale.
  apply suma_map_ext. intros m _.
  unfold fila_inflacion, py_pow. cbn [Valor_Actual]. unfold Qdiv. ring.
Qed.

Lemma van_dolar_factor (P : Q) (N : Z) (tc dev r : Q) :
  suma (map Valor_Actual_d
          (map (fila_dolar_mes (P / tc / inject_Z N) tc dev r)
             (py_range 1 (N + 1))))
  == P * suma (map Valor_Actual_d
                 (map (fila_dolar_mes (1 / tc / inject_Z N) tc dev r)
                    (py_range 1 (N + 1)))).
Proof.
  rewrite !map_map, <- suma_map_scale.
  apply suma_map_ext. intros m _.
  unfold fila_dolar_mes, py_pow. cbn [Valor_Actual_d]. unfold Qdiv. ring.
Qed.

(** X3.  The three NPVs are homogeneous in the principal: evaluating
    [c * P] gives [c] times the NPV of [P], for [N >= 1], a nonzero initial
    exchange rate and [1 + r] not zero. *)
Theorem npv_homogeneous_in_principal (c P : Q) (N : Z) (desc tc i d r : Q) :
  (1 <= N)%Z -> ~ tc == 0 -> ~ 1 + r == 0 ->
  fst (calcular_opcion_1_contado (c * P) desc)
  == c * fst (calcular_opcion_1_contado P desc) /\
  (exists (van van' : Q) (df df' : list fila),
     calcular_opcion_2_inflacion P N i r = OK (van, df) /\
     calcular_opcion_2_inflacion (c * P) N i r = OK (van', df') /\
     van' == c * van) /\
  (exists (van van' : Q) (df df' : list fila_dolar),
     calcular_opcion_3_dolar P N tc d r = OK (van, df) /\
     calcular_opcion_3_dolar (c * P) N tc d r = OK (van', df') /\
     van' == c * van).
Proof.
  intros HN Htc Hr.
  assert (HN0 : N <> 0%Z) by lia.
  split; [ | split ].
  - cbn [calcular_opcion_1_contado fst]. ring.
  - do 4 eexists.
    split; [ now apply calcular_opcion_2_inflacion_ok | ].
    split; [ now apply calcular_opcion_2_inflacion_ok | ].
    rewrite (van_inflacion_factor (c * P)), (van_inflacion_factor P). ring.
  - do 4 eexists.
    split; [ now apply calcular_opcion_3_dolar_ok | ].
    split; [ now apply calcular_opcion_3_dolar_ok | ].
    rewrite (van_dolar_factor (c * P)), (van_dolar_factor P). ring.
Qed.

Lemma npv_homogeneous_in_principal_witness :
  (1 <= 2)%Z /\ ~ 950 == 0 /\ ~ 1 + (1 # 10) == 0 /\
  fst (calcular_opcion_1_contado (3 * 1000) 7)
  == 3 * fst (calcular_opcion_1_contado 1000 7).
Proof.
  assert (HN : (1 <= 2)%Z) by lia.
  assert (Htc : ~ 950 == 0) by discriminate.
  assert (Hr : ~ 1 + (1 # 10) == 0) by discriminate.
  split; [ exact HN | split; [ exact Htc | split; [ exact Hr | ] ] ].
  exact (proj1 (npv_homogeneous_in_principal 3 1000 2 7 950 9 5 (1 # 10)
                  HN Htc Hr)).
Defined.

(** ** The page body *)

Lemma recomendacion_ok (P desc tc i d r : Q) :
  ~ tc == 0 -> ~ 1 + r == 0 ->
  recomendacion P desc tc i d r
  = mejor_opcion
      (P * (1 - desc / 100))
      (suma (map Valor_Actual
               (map (fila_inflacion (P / inject_Z plazo_meses) (i / 100) r)
                  (py_range 1 (plazo_meses + 1)))))
      (suma (map Valor_Actual_d
               (map (fila_dolar_mes (P / tc / inject_Z plazo_meses) tc
                       (d / 100) r)
                  (py_range 1 (plazo_meses + 1))))).
Proof.
  intros Htc Hr. unfold recomendacion.
  cbn [calcular_opcion_1_contado].
  rewrite calcular_opcion_2_inflacion_ok by (assumption || (unfold plazo_meses; lia)).
  cbn [bind].
  rewrite calcular_opcion_3_dolar_ok by (assumption || (unfold plazo_meses; lia)).
  reflexivity.
Qed.

Lemma recomendacion_tasa (P desc tc i d r : Q) :
  1 + r == 0 -> recomendacion P desc tc i d r = Err ZeroDivisionError.
Proof.
  intros Hr. unfold recomendacion.
  cbn [calcular_opcion_1_contado].
  rewrite calcular_opcion_2_inflacion_tasa by (assumption || (unfold plazo_meses; lia)).
  reflexivity.
Qed.

Lemma recomendacion_tc_0 (P desc tc i d r : Q) :
  tc == 0 -> recomendacion P desc tc i d r = Err ZeroDivisionError.
Proof.
  intros Htc. unfold recomendacion.
  cbn [calcular_opcion_1_contado].
  destruct (calcular_opcion_2_inflacion P plazo_meses i r) as [[van2 df2] | e]
    eqn:E2.
  - cbn [bind]. now rewrite calcular_opcion_3_dolar_tc_0.
  - cbn [bind]. f_equal.
    destruct (Qeq_dec (1 + r) 0) as [Hr | Hr].
    + rewrite calcular_opcion_2_inflacion_tasa in E2
        by (assumption || (unfold plazo_meses; lia)).
      congruence.
    + rewrite calcular_opcion_2_inflacion_ok in E2
        by (assumption || (unfold plazo_meses; lia)).
      discriminate E2.
Qed.

(** X4.  The page computation either recommends one of the three options
    or raises [ZeroDivisionError]; it raises exactly when the initial
    exchange rate is zero or the monthly discount rate is -1. *)
Theorem recomendacion_outcomes (P desc tc i d r : Q) :
  match recomendacion P desc tc i d r with
  | OK k =>
      In k [ opcion_1; opcion_2; opcion_3 ] /\ ~ tc == 0 /\ ~ 1 + r == 0
  | Err e => e = ZeroDivisionError /\ (tc == 0 \/ 1 + r == 0)
  end.
Proof.
  destruct (Qeq_dec tc 0) as [Htc | Htc].
  { rewrite recomendacion_tc_0 by exact Htc. split; [ reflexivity | now left ]. }
  destruct (Qeq_dec (1 + r) 0) as [Hr | Hr].
  { rewrite recomendacion_tasa by exact Hr. split; [ reflexivity | now right ]. }
  rewrite recomendacion_ok by assumption.
  rewrite mejor_opcion_cases.
  split; [ | split; assumption ].
  repeat match goal with
    | |- context [ if ?b then _ else _ ] => destruct b
    end; simpl; auto.
Qed.

(** X5.  Within the bounds of the page's widgets, an initial exchange rate
    of at least 1 and a discount rate that is not negative, the page
    computation never raises: it recommends one of the three options. *)
Theorem recomendacion_within_widget_bounds (P desc tc i d r : Q) :
  1 <= tc -> 0 <= r ->
  exists k : string,
    recomendacion P desc tc i d r = OK k /\
    In k [ opcion_1; opcion_2; opcion_3 ].
Proof.
  intros Htc Hr.
  rewrite recomendacion_ok.
  - rewrite mejor_opcion_cases. eexists. split; [ reflexivity | ].
    repeat match goal with
      | |- context [ if ?b then _ else _ ] => destruct b
      end; simpl; auto.
  - intros E. lra.
  - intros E. lra.
Qed.

Lemma recomendacion_within_widget_bounds_witness :
  1 <= 950 /\ 0 <= (1 # 15) /\
  exists k : string,
    recomendacion 1000000 7 950 9 5 (1 # 15) = OK k /\
    In k [ opcion_1; opcion_2; opcion_3 ].
Proof.
  assert (Htc : 1 <= 950) by discriminate.
  assert (Hr : 0 <= (1 # 15)) by discriminate.
  split; [ exact Htc | split; [ exact Hr | ] ].
  exact (recomendacion_within_widget_bounds 1000000 7 950 9 5 (1 # 15)
           Htc Hr).
Defined.



(** ** The NPV of option 2 against the principal *)

(** [N] installments of [P / N] add up to [P]. *)
Lemma suma_cuotas_base (P : Q) (N : Z) :
  (1 <= N)%Z ->
  suma (map (fun _ : Z => P / inject_Z N) (py_range 1 (N + 1))) == P.
Proof.
  intros HN. rewrite suma_constant_Z by lia.
  field. rewrite inject_Z_zero. lia.
Qed.

(** X7.  When the monthly inflation rate equals the monthly discount rate,
    every installment of option 2 is worth the base installment today, and
    the NPV is the principal itself. *)
Theorem inflacion_equal_to_discount (P : Q) (N : Z) (i r : Q) :
  (1 <= N)%Z -> ~ 1 + r == 0 -> i / 100 == r ->
  exists (van : Q) (df : list fila),
    calcular_opcion_2_inflacion P N i r = OK (van, df) /\
    (forall row : fila, In row df -> Valor_Actual row == P / inject_Z N) /\
    van == P.
Proof.
  intros HN Hr Hir.
  assert (Hterm : forall m : Z,
            Valor_Actual (fila_inflacion (P / inject_Z N) (i / 100) r m)
            == P / inject_Z N).
  { intros m. unfold fila_inflacion, py_pow. cbn [Valor_Actual].
    rewrite Hir. field.
    split; first [ now apply Qpower_not_0 | rewrite inject_Z_zero; lia ]. }
  do 2 eexists.
  split; [ apply calcular_opcion_2_inflacion_ok; [ lia | exact Hr ] | ].
  split.
  - intros row Hrow. apply in_map_iff in Hrow.
    destruct Hrow as [m [<- _]]. apply Hterm.
  - rewrite map_map, <- (suma_cuotas_base P N HN) at 1.
    apply suma_map_ext. intros m _. apply Hterm.
Qed.

Lemma inflacion_equal_to_discount_witness :
  (1 <= 3)%Z /\ ~ 1 + (1 # 10) == 0 /\ 10 / 100 == (1 # 10) /\
  exists (van : Q) (df : list fila),
    calcular_opcion_2_inflacion 1200 3 10 (1 # 10) = OK (van, df) /\
    van == 1200.
Proof.
  assert (HN : (1 <= 3)%Z) by lia.
  assert (Hr : ~ 1 + (1 # 10) == 0) by discriminate.
  assert (Hir : 10 / 100 == (1 # 10)) by reflexivity.
  split; [ exact HN | split; [ exact Hr | split; [ exact Hir | ] ] ].
  destruct (inflacion_equal_to_discount 1200 3 10 (1 # 10) HN Hr Hir)
    as [van [df [E [_ Hvan]]]].
  exists van, df. split; [ exact E | exact Hvan ].
Defined.

(** X8.  For a positive principal and a discount rate above -1, the NPV of
    option 2 exceeds the principal when the inflation rate exceeds the
    discount rate, and is below the principal when a non-negative
    inflation rate is below the discount rate. *)
Theorem inflacion_npv_versus_principal (P : Q) (N : Z) (i r : Q) :
  0 < P -> (1 <= N)%Z -> 0 <= i -> 0 < 1 + r ->
  exists (van : Q) (df : list fila),
    calcular_opcion_2_inflacion P N i r = OK (van, df) /\
    (r < i / 100 -> P < van) /\
    (i / 100 < r -> van < P).
Proof.
  intros HP HN Hi Hx.
  assert (Hr : ~ 1 + r == 0) by now apply tasa_no_cero.
  assert (Hbase : 0 < P / inject_Z N) by now apply cuota_base_pos.
  assert (Hinf : 1 <= 1 + i / 100) by now apply uno_mas_pct_nonneg.
  do 2 eexists.
  split; [ apply calcular_opcion_2_inflacion_ok; [ lia | exact Hr ] | ].
  rewrite map_map.
  split; intros Hcmp.
  - apply Qle_lt_trans
      with (suma (map (fun _ : Z => P / inject_Z N) (py_range 1 (N + 1)))).
    { rewrite suma_cuotas_base by exact HN. apply Qle_refl. }
    apply suma_map_lt; [ now apply py_range_not_nil | ].
    intros m Hm. apply py_range_In in Hm.
    unfold fila_inflacion, py_pow. cbn [Valor_Actual].
    apply Qlt_shift_div_l; [ now apply Qpower_0_lt | ].
    apply Qmult_lt_l; [ exact Hbase | ].
    apply Qpower_lt_base; [ lia | lra | lra ].
  - apply Qlt_le_trans
      with (suma (map (fun _ : Z => P / inject_Z N) (py_range 1 (N + 1)))).
    2: { rewrite suma_cuotas_base by exact HN. apply Qle_refl. }
    apply suma_map_lt; [ now apply py_range_not_nil | ].
    intros m Hm. apply py_range_In in Hm.
    unfold fila_inflacion, py_pow. cbn [Valor_Actual].
    apply Qlt_shift_div_r; [ now apply Qpower_0_lt | ].
    apply Qmult_lt_l; [ exact Hbase | ].
    apply Qpower_lt_base; [ lia | lra | lra ].
Qed.

Lemma inflacion_npv_versus_principal_witness :
  0 < 1200 /\ (1 <= 3)%Z /\ 0 <= 20 /\ 0 < 1 + (1 # 10) /\
  exists (van : Q) (df : list fila),
    calcular_opcion_2_inflacion 1200 3 20 (1 # 10) = OK (van, df) /\
    1200 < van.
Proof.
  assert (HP : 0 < 1200) by reflexivity.
  assert (HN : (1 <= 3)%Z) by lia.
  assert (Hi : 0 <= 20) by discriminate.
  assert (Hx : 0 < 1 + (1 # 10)) by reflexivity.
  split; [ exact HP | split; [ exact HN | split; [ exact Hi | ] ] ].
  split; [ exact Hx | ].
  destruct (inflacion_npv_versus_principal 1200 3 20 (1 # 10) HP HN Hi Hx)
    as [van [df [E [Hgt _]]]].
  exists van, df. split; [ exact E | apply Hgt; reflexivity ].
Defined.

(** ** NPV and nominal total *)

Lemma Qdiv_one (a : Q) : a / 1 == a.
Proof.
  unfold Qdiv. change (/ 1) with 1. apply Qmult_1_r.
Qed.

(** X9.  With a discount rate of zero every present value is its cash flow,
    so the NPV of options 2 and 3 is the nominal total of the schedule. *)
Theorem npv_is_nominal_total_without_discount (P : Q) (N : Z) (tc i d : Q) :
  (1 <= N)%Z -> ~ tc == 0 ->
  (exists (van : Q) (df : list fila),
     calcular_opcion_2_inflacion P N i 0 = OK (van, df) /\
     (forall row : fila, In row df ->
        Valor_Actual row == Flujo_de_Caja row) /\
     van == total_nominal df) /\
  (exists (van : Q) (df : list fila_dolar),
     calcular_opcion_3_dolar P N tc d 0 = OK (van, df) /\
     (forall row : fila_dolar, In row df ->
        Valor_Actual_d row == Flujo_de_Caja_d row) /\
     van == total_nominal_dolar df).
Proof.
  intros HN Htc.
  assert (H1 : ~ 1 + 0 == 0) by discriminate.
  assert (Hpow : forall m : Z, (1 + 0) ^ m == 1).
  { intros m. assert (E : 1 + 0 == 1) by reflexivity.
    rewrite E. apply Qpower_1. }
  split.
  - assert (Hterm : forall m : Z,
              Valor_Actual (fila_inflacion (P / inject_Z N) (i / 100) 0 m)
              == Flujo_de_Caja
                   (fila_inflacion (P / inject_Z N) (i / 100) 0 m)).
    { intros m. unfold fila_inflacion, py_pow.
      cbn [Valor_Actual Flujo_de_Caja]. rewrite Hpow. apply Qdiv_one. }
    do 2 eexists.
    split; [ apply calcular_opcion_2_inflacion_ok; [ lia | exact H1 ] | ].
    split.
    + intros row Hrow. apply in_map_iff in Hrow.
      destruct Hrow as [m [<- _]]. apply Hterm.
    + unfold total_nominal. rewrite !map_map.
      apply suma_map_ext. intros m _. apply Hterm.
  - assert (Hterm : forall m : Z,
              Valor_Actual_d
                (fila_dolar_mes (P / tc / inject_Z N) tc (d / 100) 0 m)
              == Flujo_de_Caja_d
                   (fila_dolar_mes (P / tc / inject_Z N) tc (d / 100) 0 m)).
    { intros m. unfold fila_dolar_mes, py_pow.
      cbn [Valor_Actual_d Flujo_de_Caja_d]. rewrite Hpow. apply Qdiv_one. }
    do 2 eexists.
    split; [ apply calcular_opcion_3_dolar_ok; [ exact Htc | lia | exact H1 ] | ].
    split.
    + intros row Hrow. apply in_map_iff in Hrow.
      destruct Hrow as [m [<- _]]. apply Hterm.
    + unfold total_nominal_dolar. rewrite !map_map.
      apply suma_map_ext. intros m _. apply Hterm.
Qed.

Lemma npv_is_nominal_total_without_discount_witness :
  (1 <= 2)%Z /\ ~ 950 == 0 /\
  exists (van : Q) (df : list fila),
    calcular_opcion_2_inflacion 1000 2 10 0 = OK (van, df) /\
    van == total_nominal df.
Proof.
  assert (HN : (1 <= 2)%Z) by lia.
  assert (Htc : ~ 950 == 0) by discriminate.
  split; [ exact HN | split; [ exact Htc | ] ].
  destruct (proj1 (npv_is_nominal_total_without_discount 1000 2 950 10 5
                     HN Htc))
    as [van [df [E [_ Hvan]]]].
  exists van, df. split; [ exact E | exact Hvan ].
Defined.

(** X10.  Without inflation the installments of option 2 add up to the
    principal, and without devaluation so do those of option 3: the
    nominal total of the schedule is [P]. *)
Theorem nominal_total_without_indexation (P : Q) (N : Z) (tc r : Q) :
  (1 <= N)%Z -> ~ tc == 0 -> ~ 1 + r == 0 ->
  (exists (van : Q) (df : list fila),
     calcular_opcion_2_inflacion P N 0 r = OK (van, df) /\
     total_nominal df == P) /\
  (exists (van : Q) (df : list fila_dolar),
     calcular_opcion_3_dolar P N tc 0 r = OK (van, df) /\
     total_nominal_dolar df == P).
Proof.
  intros HN Htc Hr.
  assert (HNq : ~ inject_Z N == 0) by (rewrite inject_Z_zero; lia).
  assert (Hpow : forall m : Z, (1 + 0 / 100) ^ m == 1).
  { intros m. assert (E : 1 + 0 / 100 == 1) by reflexivity.
    rewrite E. apply Qpower_1. }
  split.
  - do 2 eexists.
    split; [ apply calcular_opcion_2_inflacion_ok; [ lia | exact Hr ] | ].
    unfold total_nominal. rewrite map_map.
    apply Qeq_trans with
      (suma (map (fun _ : Z => P / inject_Z N) (py_range 1 (N + 1))));
      [ | now apply suma_cuotas_base ].
    apply suma_map_ext. intros m _.
    unfold fila_inflacion, py_pow. cbn [Flujo_de_Caja].
    rewrite Hpow. apply Qmult_1_r.
  - do 2 eexists.
    split; [ apply calcular_opcion_3_dolar_ok; [ exact Htc | lia | exact Hr ] | ].
    unfold total_nominal_dolar. rewrite map_map.
    apply Qeq_trans with
      (suma (map (fun _ : Z => P / inject_Z N) (py_range 1 (N + 1))));
      [ | now apply suma_cuotas_base ].
    apply suma_map_ext. intros m _.
    unfold fila_dolar_mes, py_pow. cbn [Flujo_de_Caja_d].
    rewrite Hpow. field. split; assumption.
Qed.

Lemma nominal_total_without_indexation_witness :
  (1 <= 4)%Z /\ ~ 950 == 0 /\ ~ 1 + (1 # 10) == 0 /\
  exists (van : Q) (df : list fila),
    calcular_opcion_2_inflacion 1000 4 0 (1 # 10) = OK (van, df) /\
    total_nominal df == 1000.
Proof.
  assert (HN : (1 <= 4)%Z) by lia.
  assert (Htc : ~ 950 == 0) by discriminate.
  assert (Hr : ~ 1 + (1 # 10) == 0) by discriminate.
  split; [ exact HN | split; [ exact Htc | split; [ exact Hr | ] ] ].
  exact (proj1 (nominal_total_without_indexation 1000 4 950 (1 # 10)
                  HN Htc Hr)).
Defined.

(** X11.  For a non-negative principal, inflation rate and discount rate,
    every present value of option 2 lies between 0 and its cash flow, and
    the NPV lies between 0 and the nominal total: discounting never adds
    value. *)
Theorem inflacion_npv_at_most_nominal_total (P : Q) (N : Z) (i r : Q) :
  0 <= P -> (1 <= N)%Z -> 0 <= i -> 0 <= r ->
  exists (van : Q) (df : list fila),
    calcular_opcion_2_inflacion P N i r = OK (van, df) /\
    (forall row : fila, In row df ->
       0 <= Valor_Actual row /\ Valor_Actual row <= Flujo_de_Caja row) /\
    0 <= van /\ van <= total_nominal df.
Proof.
  intros HP HN Hi Hr0.
  assert (Hx : 0 < 1 + r) by lra.
  assert (Hr : ~ 1 + r == 0) by now apply tasa_no_cero.
  assert (Hbase : 0 <= P / inject_Z N) by now apply cuota_base_nonneg.
  assert (Hinf : 1 <= 1 + i / 100) by now apply uno_mas_pct_nonneg.
  assert (Hterm : forall m : Z, (1 <= m)%Z ->
            0 <= Valor_Actual (fila_inflacion (P / inject_Z N) (i / 100) r m)
            /\ Valor_Actual (fila_inflacion (P / inject_Z N) (i / 100) r m)
               <= Flujo_de_Caja
                    (fila_inflacion (P / inject_Z N) (i / 100) r m)).
  { intros m Hm. unfold fila_inflacion, py_pow.
    cbn [Valor_Actual Flujo_de_Caja].
    assert (Hy : 0 < (1 + r) ^ m) by now apply Qpower_0_lt.
    assert (Hy1 : 1 <= (1 + r) ^ m) by (apply Qpower_1_le; [ lra | lia ]).
    assert (Hf : 0 <= P / inject_Z N * (1 + i / 100) ^ m).
    { apply Qmult_le_0_compat; [ exact Hbase | ].
      apply Qpower_0_le. lra. }
    split.
    - apply Qle_shift_div_l; [ exact Hy | now rewrite Qmult_0_l ].
    - apply Qle_shift_div_r; [ exact Hy | ].
      rewrite <- (Qmult_1_r (P / inject_Z N * (1 + i / 100) ^ m)) at 1.
      rewrite !(Qmult_comm (P / inject_Z N * (1 + i / 100) ^ m)).
      now apply Qmult_le_compat_r. }
  do 2 eexists.
  split; [ apply calcular_opcion_2_inflacion_ok; [ lia | exact Hr ] | ].
  split; [ | split ].
  - intros row Hrow. apply in_map_iff in Hrow.
    destruct Hrow as [m [<- Hm]]. apply py_range_In in Hm.
    apply Hterm. lia.
  - rewrite map_map. apply suma_map_nonneg.
    intros m Hm. apply py_range_In in Hm. apply Hterm. lia.
  - unfold total_nominal. rewrite !map_map. apply suma_map_le.
    intros m Hm. apply py_range_In in Hm. apply Hterm. lia.
Qed.

Lemma inflacion_npv_at_most_nominal_total_witness :
  0 <= 1200 /\ (1 <= 3)%Z /\ 0 <= 9 /\ 0 <= (1 # 15) /\
  exists (van : Q) (df : list fila),
    calcular_opcion_2_inflacion 1200 3 9 (1 # 15) = OK (van, df) /\
    0 <= van /\ van <= total_nominal df.
Proof.
  assert (HP : 0 <= 1200) by discriminate.
  assert (HN : (1 <= 3)%Z) by lia.
  assert (Hi : 0 <= 9) by discriminate.
  assert (Hr : 0 <= (1 # 15)) by discriminate.
  split; [ exact HP | split; [ exact HN | split; [ exact Hi | ] ] ].
  split; [ exact Hr | ].
  destruct (inflacion_npv_at_most_nominal_total 1200 3 9 (1 # 15)
              HP HN Hi Hr)
    as [van [df [E [_ [H0 Hle]]]]].
  exists van, df. split; [ exact E | split; assumption ].
Defined.

(** ** Monotonicity in the discount rate *)

(** X12.  For a positive principal and a non-negative inflation rate, the
    NPV of option 2 is strictly decreasing in the discount rate above -1:
    a larger discount rate gives a strictly smaller NPV. *)
Theorem inflacion_npv_decreasing_in_discount (P : Q) (N : Z) (i r r' : Q) :
  0 < P -> (1 <= N)%Z -> 0 <= i -> 0 < 1 + r -> r < r' ->
  exists (van van' : Q) (df df' : list fila),
    calcular_opcion_2_inflacion P N i r = OK (van, df) /\
    calcular_opcion_2_inflacion P N i r' = OK (van', df') /\
    van' < van.
Proof.
  intros HP HN Hi Hx Hrr.
  assert (Hx' : 0 < 1 + r') by lra.
  assert (Hbase : 0 < P / inject_Z N) by now apply cuota_base_pos.
  assert (Hinf : 1 <= 1 + i / 100) by now apply uno_mas_pct_nonneg.
  do 4 eexists.
  split; [ apply calcular_opcion_2_inflacion_ok;
           [ lia | now apply tasa_no_cero ] | ].
  split; [ apply calcular_opcion_2_inflacion_ok;
           [ lia | now apply tasa_no_cero ] | ].
  rewrite !map_map. apply suma_map_lt; [ now apply py_range_not_nil | ].
  intros m Hm. apply py_range_In in Hm.
  unfold fila_inflacion, py_pow. cbn [Valor_Actual].
  assert (Hy : 0 < (1 + r) ^ m) by now apply Qpower_0_lt.
  assert (Hy' : 0 < (1 + r') ^ m) by now apply Qpower_0_lt.
  assert (Hyy : (1 + r) ^ m < (1 + r') ^ m).
  { apply Qpower_lt_base; [ lia | lra | lra ]. }
  assert (Hf : 0 < P / inject_Z N * (1 + i / 100) ^ m).
  { apply Qmult_lt_0_compat; [ exact Hbase | ].
    apply Qpower_0_lt. lra. }
  set (f := P / inject_Z N * (1 + i / 100) ^ m) in *.
  unfold Qdiv. apply Qmult_lt_l; [ exact Hf | ].
  apply -> (Qinv_lt_contravar ((1 + r) ^ m) ((1 + r') ^ m)); assumption.
Qed.

Lemma inflacion_npv_decreasing_in_discount_witness :
  0 < 1200 /\ (1 <= 3)%Z /\ 0 <= 9 /\ 0 < 1 + (1 # 20) /\ (1 # 20) < (1 # 10) /\
  exists (van van' : Q) (df df' : list fila),
    calcular_opcion_2_inflacion 1200 3 9 (1 # 20) = OK (van, df) /\
    calcular_opcion_2_inflacion 1200 3 9 (1 # 10) = OK (van', df') /\
    van' < van.
Proof.
  assert (HP : 0 < 1200) by reflexivity.
  assert (HN : (1 <= 3)%Z) by lia.
  assert (Hi : 0 <= 9) by discriminate.
  assert (Hx : 0 < 1 + (1 # 20)) by reflexivity.
  assert (Hrr : (1 # 20) < (1 # 10)) by reflexivity.
  split; [ exact HP | split; [ exact HN | split; [ exact Hi | ] ] ].
  split; [ exact Hx | split; [ exact Hrr | ] ].
  exact (inflacion_npv_decreasing_in_discount 1200 3 9 (1 # 20) (1 # 10)
           HP HN Hi Hx Hrr).
Defined.

(** ** Growth along the schedules *)

Lemma py_range_nth_error_inv (lo hi : Z) (k : nat) (m : Z) :
  nth_error (py_range lo hi) k = Some m -> m = (lo + Z.of_nat k)%Z.
Proof.
  intros H.
  assert (Hk : (k < List.length (py_range lo hi))%nat).
  { apply nth_error_Some. congruence. }
  rewrite py_range_length in Hk.
  rewrite py_range_nth_error in H by exact Hk. congruence.
Qed.

(** Two consecutive rows of a schedule built from [range] are those of two
    consecutive months. *)
Lemma consecutive_rows {A : Type} (f : Z -> A) (lo hi : Z) (k : nat)
  (a b : A) :
  nth_error (map f (py_range lo hi)) k = Some a ->
  nth_error (map f (py_range lo hi)) (S k) = Some b ->
  exists m : Z, (lo <= m)%Z /\ a = f m /\ b = f (m + 1)%Z.
Proof.
  rewrite !nth_error_map. intros Ha Hb.
  destruct (nth_error (py_range lo hi) k) as [m | ] eqn:Em;
    [ | discriminate Ha ].
  destruct (nth_error (py_range lo hi) (S k)) as [m' | ] eqn:Em';
    [ | discriminate Hb ].
  apply py_range_nth_error_inv in Em. apply py_range_nth_error_inv in Em'.
  exists m. split; [ lia | ].
  simpl in Ha, Hb. split; [ congruence | ].
  replace (m + 1)%Z with m' by lia. congruence.
Qed.

Lemma Qpower_succ_ge (x : Q) (m : Z) :
  (1 <= m)%Z -> 1 <= x -> x ^ m <= x ^ (m + 1).
Proof.
  intros Hm Hx. apply Qpower_le_compat_l; [ lia | exact Hx ].
Qed.

(** X13.  For a non-negative principal and inflation rate, every
    installment of option 2 is at least the base installment [P / N], and
    the installments never decrease from one month to the next. *)
Theorem inflacion_installments_grow (P : Q) (N : Z) (i r : Q) :
  0 <= P -> (1 <= N)%Z -> 0 <= i -> ~ 1 + r == 0 ->
  exists (van : Q) (df : list fila),
    calcular_opcion_2_inflacion P N i r = OK (van, df) /\
    (forall row : fila, In row df -> P / inject_Z N <= Flujo_de_Caja row) /\
    (forall (k : nat) (a b : fila),
       nth_error df k = Some a -> nth_error df (S k) = Some b ->
       Flujo_de_Caja a <= Flujo_de_Caja b).
Proof.
  intros HP HN Hi Hr.
  assert (Hbase : 0 <= P / inject_Z N) by now apply cuota_base_nonneg.
  assert (Hinf : 1 <= 1 + i / 100) by now apply uno_mas_pct_nonneg.
  do 2 eexists.
  split; [ apply calcular_opcion_2_inflacion_ok; [ lia | exact Hr ] | ].
  split.
  - intros row Hrow. apply in_map_iff in Hrow.
    destruct Hrow as [m [<- Hm]]. apply py_range_In in Hm.
    unfold fila_inflacion, py_pow. cbn [Flujo_de_Caja].
    rewrite <- (Qmult_1_r (P / inject_Z N)) at 1.
    rewrite !(Qmult_comm (P / inject_Z N)).
    apply Qmult_le_compat_r; [ | exact Hbase ].
    apply Qpower_1_le; [ exact Hinf | lia ].
  - intros k a b Ha Hb.
    destruct (consecutive_rows _ _ _ _ _ _ Ha Hb) as [m [Hm [-> ->]]].
    unfold fila_inflacion, py_pow. cbn [Flujo_de_Caja].
    rewrite !(Qmult_comm (P / inject_Z N)).
    apply Qmult_le_compat_r; [ | exact Hbase ].
    now apply Qpower_succ_ge.
Qed.

Lemma inflacion_installments_grow_witness :
  0 <= 1200 /\ (1 <= 3)%Z /\ 0 <= 9 /\ ~ 1 + (1 # 15) == 0 /\
  exists (van : Q) (df : list fila),
    calcular_opcion_2_inflacion 1200 3 9 (1 # 15) = OK (van, df) /\
    (forall row : fila, In row df -> 1200 / inject_Z 3 <= Flujo_de_Caja row).
Proof.
  assert (HP : 0 <= 1200) by discriminate.
  assert (HN : (1 <= 3)%Z) by lia.
  assert (Hi : 0 <= 9) by discriminate.
  assert (Hr : ~ 1 + (1 # 15) == 0) by discriminate.
  split; [ exact HP | split; [ exact HN | split; [ exact Hi | ] ] ].
  split; [ exact Hr | ].
  destruct (inflacion_installments_grow 1200 3 9 (1 # 15) HP HN Hi Hr)
    as [van [df [E [Hrows _]]]].
  exists van, df. split; [ exact E | exact Hrows ].
Defined.

(** X14.  For a positive initial exchange rate and a non-negative
    devaluation rate, every projected exchange rate of option 3 is at
    least the initial rate, and the projected rates never decrease from
    one month to the next. *)
Theorem dolar_projected_rate_grows (P : Q) (N : Z) (tc d r : Q) :
  (1 <= N)%Z -> 0 < tc -> 0 <= d -> ~ 1 + r == 0 ->
  exists (van : Q) (df : list fila_dolar),
    calcular_opcion_3_dolar P N tc d r = OK (van, df) /\
    (forall row : fila_dolar, In row df -> tc <= TC_Proyectado row) /\
    (forall (k : nat) (a b : fila_dolar),
       nth_error df k = Some a -> nth_error df (S k) = Some b ->
       TC_Proyectado a <= TC_Proyectado b).
Proof.
  intros HN Htc Hd Hr.
  assert (Htc0 : ~ tc == 0) by (intros E; rewrite E in Htc; discriminate).
  assert (Htc' : 0 <= tc) by now apply Qlt_le_weak.
  assert (Hdev : 1 <= 1 + d / 100) by now apply uno_mas_pct_nonneg.
  do 2 eexists.
  split; [ apply calcular_opcion_3_dolar_ok; [ exact Htc0 | lia | exact Hr ] | ].
  split.
  - intros row Hrow. apply in_map_iff in Hrow.
    destruct Hrow as [m [<- Hm]]. apply py_range_In in Hm.
    unfold fila_dolar_mes, py_pow. cbn [TC_Proyectado].
    rewrite <- (Qmult_1_r tc) at 1.
    rewrite !(Qmult_comm tc).
    apply Qmult_le_compat_r; [ | exact Htc' ].
    apply Qpower_1_le; [ exact Hdev | lia ].
  - intros k a b Ha Hb.
    destruct (consecutive_rows _ _ _ _ _ _ Ha Hb) as [m [Hm [-> ->]]].
    unfold fila_dolar_mes, py_pow. cbn [TC_Proyectado].
    rewrite !(Qmult_comm tc).
    apply Qmult_le_compat_r; [ | exact Htc' ].
    now apply Qpower_succ_ge.
Qed.

Lemma dolar_projected_rate_grows_witness :
  (1 <= 3)%Z /\ 0 < 950 /\ 0 <= 5 /\ ~ 1 + (1 # 15) == 0 /\
  exists (van : Q) (df : list fila_dolar),
    calcular_opcion_3_dolar 1200 3 950 5 (1 # 15) = OK (van, df) /\
    (forall row : fila_dolar, In row df -> 950 <= TC_Proyectado row).
Proof.
  assert (HN : (1 <= 3)%Z) by lia.
  assert (Htc : 0 < 950) by reflexivity.
  assert (Hd : 0 <= 5) by discriminate.
  assert (Hr : ~ 1 + (1 # 15) == 0) by discriminate.
  split; [ exact HN | split; [ exact Htc | split; [ exact Hd | ] ] ].
  split; [ exact Hr | ].
  destruct (dolar_projected_rate_grows 1200 3 950 5 (1 # 15) HN Htc Hd Hr)
    as [van [df [E [Hrows _]]]].
  exists van, df. split; [ exact E | exact Hrows ].
Defined.

(** ** Comparing the options *)

Lemma van_dolar_is_van_inflacion (P : Q) (N : Z) (tc dev r : Q) :
  ~ tc == 0 ->
  suma (map Valor_Actual_d
          (map (fila_dolar_mes (P / tc / inject_Z N) tc dev r)
             (py_range 1 (N + 1))))
  == suma (map Valor_Actual
             (map (fila_inflacion (P / inject_Z N) dev r)
                (py_range 1 (N + 1)))).
Proof.
  intros Htc. rewrite !map_map. apply suma_map_ext. intros m _.
  now apply fila_dolar_is_fila_inflacion.
Qed.

Lemma van_inflacion_le_in_rate (P : Q) (N : Z) (inf inf' r : Q) :
  0 <= P -> (1 <= N)%Z -> 0 <= 1 + inf -> inf <= inf' -> 0 < 1 + r ->
  suma (map Valor_Actual
          (map (fila_inflacion (P / inject_Z N) inf r) (py_range 1 (N + 1))))
  <= suma (map Valor_Actual
             (map (fila_inflacion (P / inject_Z N) inf' r)
                (py_range 1 (N + 1)))).
Proof.
  intros HP HN Hinf Hle Hx.
  assert (Hbase : 0 <= P / inject_Z N) by now apply cuota_base_nonneg.
  rewrite !map_map. apply suma_map_le.
  intros m Hm. apply py_range_In in Hm.
  unfold fila_inflacion, py_pow. cbn [Valor_Actual].
  unfold Qdiv at 1 3.
  apply Qmult_le_compat_r.
  - rewrite !(Qmult_comm (P / inject_Z N)).
    apply Qmult_le_compat_r; [ | exact Hbase ].
    apply Qpower_le_base; [ lia | exact Hinf | lra ].
  - apply Qlt_le_weak, Qinv_lt_0_compat. now apply Qpower_0_lt.
Qed.

Lemma van_inflacion_lt_in_rate (P : Q) (N : Z) (inf inf' r : Q) :
  0 < P -> (1 <= N)%Z -> 0 <= 1 + inf -> inf < inf' -> 0 < 1 + r ->
  suma (map Valor_Actual
          (map (fila_inflacion (P / inject_Z N) inf r) (py_range 1 (N + 1))))
  < suma (map Valor_Actual
            (map (fila_inflacion (P / inject_Z N) inf' r)
               (py_range 1 (N + 1)))).
Proof.
  intros HP HN Hinf Hlt Hx.
  assert (Hbase : 0 < P / inject_Z N) by now apply cuota_base_pos.
  rewrite !map_map. apply suma_map_lt; [ now apply py_range_not_nil | ].
  intros m Hm. apply py_range_In in Hm.
  unfold fila_inflacion, py_pow. cbn [Valor_Actual].
  unfold Qdiv at 1 3.
  apply Qmult_lt_compat_r.
  - apply Qinv_lt_0_compat. now apply Qpower_0_lt.
  - apply Qmult_lt_l; [ exact Hbase | ].
    apply Qpower_lt_base; [ lia | exact Hinf | lra ].
Qed.

Lemma van_inflacion_ge_principal (P : Q) (N : Z) (inf r : Q) :
  0 <= P -> (1 <= N)%Z -> 0 < 1 + r -> r <= inf ->
  P <= suma (map Valor_Actual
               (map (fila_inflacion (P / inject_Z N) inf r)
                  (py_range 1 (N + 1)))).
Proof.
  intros HP HN Hx Hle.
  assert (Hbase : 0 <= P / inject_Z N) by now apply cuota_base_nonneg.
  apply Qle_trans
    with (suma (map (fun _ : Z => P / inject_Z N) (py_range 1 (N + 1)))).
  { rewrite suma_cuotas_base by exact HN. apply Qle_refl. }
  rewrite map_map. apply suma_map_le.
  intros m Hm. apply py_range_In in Hm.
  unfold fila_inflacion, py_pow. cbn [Valor_Actual].
  apply Qle_shift_div_l; [ now apply Qpower_0_lt | ].
  rewrite !(Qmult_comm (P / inject_Z N)).
  apply Qmult_le_compat_r; [ | exact Hbase ].
  apply Qpower_le_base; [ lia | lra | lra ].
Qed.

(** X15.  For a non-negative principal, a positive initial exchange rate
    and a discount rate above -1, a devaluation rate that is at least the
    (non-negative) inflation rate makes the NPV of option 3 at least the
    NPV of option 2, and strictly greater when the principal is positive
    and the devaluation rate is strictly larger. *)
Theorem dolar_at_least_inflacion (P : Q) (N : Z) (tc i d r : Q) :
  0 <= P -> (1 <= N)%Z -> 0 < tc -> 0 <= i -> i <= d -> 0 < 1 + r ->
  exists (van2 van3 : Q) (df2 : list fila) (df3 : list fila_dolar),
    calcular_opcion_2_inflacion P N i r = OK (van2, df2) /\
    calcular_opcion_3_dolar P N tc d r = OK (van3, df3) /\
    van2 <= van3 /\
    (0 < P -> i < d -> van2 < van3).
Proof.
  intros HP HN Htc Hi Hid Hx.
  assert (Htc0 : ~ tc == 0) by (intros E; rewrite E in Htc; discriminate).
  assert (Hr : ~ 1 + r == 0) by now apply tasa_no_cero.
  assert (Hinf : 1 <= 1 + i / 100) by now apply uno_mas_pct_nonneg.
  do 4 eexists.
  split; [ apply calcular_opcion_2_inflacion_ok; [ lia | exact Hr ] | ].
  split; [ apply calcular_opcion_3_dolar_ok; [ exact Htc0 | lia | exact Hr ] | ].
  rewrite van_dolar_is_van_inflacion by exact Htc0.
  split.
  - apply van_inflacion_le_in_rate; try assumption; [ lra | ].
    assert (H := pct_le i d Hid). lra.
  - intros HP' Hlt.
    apply van_inflacion_lt_in_rate; try assumption; [ lra | ].
    assert (H := pct_lt i d Hlt). lra.
Qed.

Lemma dolar_at_least_inflacion_witness :
  0 <= 1200 /\ (1 <= 3)%Z /\ 0 < 950 /\ 0 <= 5 /\ 5 <= 9 /\
  0 < 1 + (1 # 15) /\
  exists (van2 van3 : Q) (df2 : list fila) (df3 : list fila_dolar),
    calcular_opcion_2_inflacion 1200 3 5 (1 # 15) = OK (van2, df2) /\
    calcular_opcion_3_dolar 1200 3 950 9 (1 # 15) = OK (van3, df3) /\
    van2 <= van3.
Proof.
  assert (HP : 0 <= 1200) by discriminate.
  assert (HN : (1 <= 3)%Z) by lia.
  assert (Htc : 0 < 950) by reflexivity.
  assert (Hi : 0 <= 5) by discriminate.
  assert (Hid : 5 <= 9) by discriminate.
  assert (Hx : 0 < 1 + (1 # 15)) by reflexivity.
  split; [ exact HP | split; [ exact HN | split; [ exact Htc | ] ] ].
  split; [ exact Hi | split; [ exact Hid | split; [ exact Hx | ] ] ].
  destruct (dolar_at_least_inflacion 1200 3 950 5 9 (1 # 15)
              HP HN Htc Hi Hid Hx)
    as [van2 [van3 [df2 [df3 [E2 [E3 [Hle _]]]]]]].
  exists van2, van3, df2, df3. repeat split; assumption.
Defined.

(** ** Consequences for the recommendation *)


(** X17.  For a positive principal and a positive cash discount, when the
    (non-negative) inflation rate is at least the discount rate, which is
    above -1, the NPV of option 2 is at least the principal and exceeds the
    discounted payment: the page never recommends option 1. *)
Theorem recomendacion_inflation_beats_contado (P desc tc i d r : Q) :
  0 < P -> 0 < desc -> 0 < 1 + r -> r <= i / 100 ->
  recomendacion P desc tc i d r <> OK opcion_1.
Proof.
  intros HP Hdesc Hx Hle.
  destruct (Qeq_dec tc 0) as [Htc | Htc].
  { rewrite recomendacion_tc_0 by exact Htc. discriminate. }
  rewrite recomendacion_ok by (assumption || now apply tasa_no_cero).
  intros H.
  apply (proj1 (proj1 (mejor_opcion_iffs _ _ _))) in H.
  destruct H as [H _].
  assert (Hv2 : P <= suma (map Valor_Actual
                    (map (fila_inflacion (P / inject_Z plazo_meses)
                            (i / 100) r)
                       (py_range 1 (plazo_meses + 1))))).
  { apply van_inflacion_ge_principal; try assumption.
    - now apply Qlt_le_weak.
    - unfold plazo_meses. lia. }
  assert (Hv1 : P * (1 - desc / 100) < P).
  { rewrite <- (Qmult_1_r P) at 2.
    apply Qmult_lt_l; [ exact HP | ].
    assert (0 < desc / 100); [ | lra ].
    apply Qlt_shift_div_l; [ reflexivity | now rewrite Qmult_0_l ]. }
  apply (Qlt_irrefl P).
  apply Qle_lt_trans with (P * (1 - desc / 100)); [ | exact Hv1 ].
  apply Qle_trans with (2 := H). exact Hv2.
Qed.

Lemma recomendacion_inflation_beats_contado_witness :
  0 < 1000000 /\ 0 < 7 /\ 0 < 1 + (1 # 15) /\ (1 # 15) <= 9 / 100 /\
  recomendacion 1000000 7 950 9 5 (1 # 15) <> OK opcion_1.
Proof.
  assert (HP : 0 < 1000000) by reflexivity.
  assert (Hdesc : 0 < 7) by reflexivity.
  assert (Hx : 0 < 1 + (1 # 15)) by reflexivity.
  assert (Hle : (1 # 15) <= 9 / 100) by discriminate.
  split; [ exact HP | split; [ exact Hdesc | split; [ exact Hx | ] ] ].
  split; [ exact Hle | ].
  exact (recomendacion_inflation_beats_contado 1000000 7 950 9 5 (1 # 15)
           HP Hdesc Hx Hle).
Defined.



(** X19.  For a non-negative principal, if the page recommends option 1
    with some cash discount, it still recommends option 1 with any smaller
    discount. *)
Theorem recomendacion_contado_kept_by_smaller_discount
  (P desc desc' tc i d r : Q) :
  0 <= P -> desc <= desc' ->
  recomendacion P desc' tc i d r = OK opcion_1 ->
  recomendacion P desc tc i d r = OK opcion_1.
Proof.
  intros HP Hle H.
  destruct (Qeq_dec tc 0) as [Htc | Htc].
  { rewrite recomendacion_tc_0 in H by exact Htc. discriminate H. }
  destruct (Qeq_dec (1 + r) 0) as [Hr | Hr].
  { rewrite recomendacion_tasa in H by exact Hr. discriminate H. }
  rewrite recomendacion_ok in * by assumption.
  apply (proj1 (mejor_opcion_iffs _ _ _)) in H.
  apply (proj1 (mejor_opcion_iffs _ _ _)).
  assert (Hv : P * (1 - desc' / 100) <= P * (1 - desc / 100)).
  { rewrite !(Qmult_comm P). apply Qmult_le_compat_r; [ | exact HP ].
    assert (desc / 100 <= desc' / 100); [ | lra ].
    unfold Qdiv. apply Qmult_le_compat_r; [ exact Hle | discriminate ]. }
  destruct H as [H2 H3].
  split; eapply Qle_trans; eassumption.
Qed.

Lemma recomendacion_contado_kept_by_smaller_discount_witness :
  0 <= 1000 /\ 0 <= 7 /\
  recomendacion 1000 7 950 0 0 (1 # 10) = OK opcion_1 /\
  recomendacion 1000 0 950 0 0 (1 # 10) = OK opcion_1.
Proof.
  assert (HP : 0 <= 1000) by discriminate.
  assert (Hle : 0 <= 7) by discriminate.
  assert (H : recomendacion 1000 7 950 0 0 (1 # 10) = OK opcion_1)
    by reflexivity.
  split; [ exact HP | split; [ exact Hle | split; [ exact H | ] ] ].
  exact (recomendacion_contado_kept_by_smaller_discount
           1000 0 7 950 0 0 (1 # 10) HP Hle H).
Defined.

(** X20.  For a non-negative principal and a discount rate above -1, if
    the page recommends option 2 at some non-negative inflation rate, it
    still recommends option 2 at any larger inflation rate. *)
Theorem recomendacion_inflacion_kept_by_larger_inflation
  (P desc tc i i' d r : Q) :
  0 <= P -> 0 < 1 + r -> 0 <= i -> i <= i' ->
  recomendacion P desc tc i d r = OK opcion_2 ->
  recomendacion P desc tc i' d r = OK opcion_2.
Proof.
  intros HP Hx Hi Hle H.
  assert (Hr : ~ 1 + r == 0) by now apply tasa_no_cero.
  destruct (Qeq_dec tc 0) as [Htc | Htc].
  { rewrite recomendacion_tc_0 in H by exact Htc. discriminate H. }
  rewrite recomendacion_ok in * by assumption.
  apply (proj1 (proj1 (proj2 (mejor_opcion_iffs _ _ _)))) in H.
  apply (proj1 (proj2 (mejor_opcion_iffs _ _ _))).
  assert (Hv : suma (map Valor_Actual
                 (map (fila_inflacion (P / inject_Z plazo_meses) (i / 100) r)
                    (py_range 1 (plazo_meses + 1))))
               <= suma (map Valor_Actual
                    (map (fila_inflacion (P / inject_Z plazo_meses)
                            (i' / 100) r)
                       (py_range 1 (plazo_meses + 1))))).
  { assert (H1 := uno_mas_pct_nonneg i Hi). assert (H2 := pct_le i i' Hle).
    apply van_inflacion_le_in_rate; try assumption;
      [ unfold plazo_meses; lia | lra | lra ]. }
  destruct H as [H1 H3].
  split.
  - eapply Qlt_le_trans; eassumption.
  - eapply Qle_trans; eassumption.
Qed.

Lemma recomendacion_inflacion_kept_by_larger_inflation_witness :
  0 <= 1000 /\ 0 < 1 + (1 # 20) /\ 0 <= 9 /\ 9 <= 12 /\
  recomendacion 1000 7 950 9 5 (1 # 20) = OK opcion_2 /\
  recomendacion 1000 7 950 12 5 (1 # 20) = OK opcion_2.
Proof.
  assert (HP : 0 <= 1000) by discriminate.
  assert (Hx : 0 < 1 + (1 # 20)) by reflexivity.
  assert (Hi : 0 <= 9) by discriminate.
  assert (Hle : 9 <= 12) by discriminate.
  assert (H : recomendacion 1000 7 950 9 5 (1 # 20) = OK opcion_2)
    by (vm_compute; reflexivity).
  split; [ exact HP | split; [ exact Hx | split; [ exact Hi | ] ] ].
  split; [ exact Hle | split; [ exact H | ] ].
  exact (recomendacion_inflacion_kept_by_larger_inflation
           1000 7 950 9 12 5 (1 # 20) HP Hx Hi Hle H).
Defined.

(** X21.  For a non-negative principal, a discount rate above -1 and a
    nonzero initial exchange rate, if the page recommends option 3 at some
    non-negative devaluation rate, it still recommends option 3 at any
    larger devaluation rate. *)
Theorem recomendacion_dolar_kept_by_larger_devaluation
  (P desc tc i d d' r : Q) :
  0 <= P -> 0 < 1 + r -> 0 <= d -> d <= d' ->
  recomendacion P desc tc i d r = OK opcion_3 ->
  recomendacion P desc tc i d' r = OK opcion_3.
Proof.
  intros HP Hx Hd Hle H.
  assert (Hr : ~ 1 + r == 0) by now apply tasa_no_cero.
  destruct (Qeq_dec tc 0) as [Htc | Htc].
  { rewrite recomendacion_tc_0 in H by exact Htc. discriminate H. }
  rewrite recomendacion_ok in * by assumption.
  apply (proj1 (proj1 (proj2 (proj2 (mejor_opcion_iffs _ _ _))))) in H.
  apply (proj1 (proj2 (proj2 (mejor_opcion_iffs _ _ _)))).
  rewrite van_dolar_is_van_inflacion in * by exact Htc.
  assert (Hv : suma (map Valor_Actual
                 (map (fila_inflacion (P / inject_Z plazo_meses) (d / 100) r)
                    (py_range 1 (plazo_meses + 1))))
               <= suma (map Valor_Actual
                    (map (fila_inflacion (P / inject_Z plazo_meses)
                            (d' / 100) r)
                       (py_range 1 (plazo_meses + 1))))).
  { assert (H1 := uno_mas_pct_nonneg d Hd). assert (H2 := pct_le d d' Hle).
    apply van_inflacion_le_in_rate; try assumption;
      [ unfold plazo_meses; lia | lra | lra ]. }
  destruct H as [H1 H2].
  split; eapply Qlt_le_trans; eassumption.
Qed.

Lemma recomendacion_dolar_kept_by_larger_devaluation_witness :
  0 <= 1000 /\ 0 < 1 + (1 # 20) /\ 0 <= 10 /\ 10 <= 12 /\
  recomendacion 1000 7 950 9 10 (1 # 20) = OK opcion_3 /\
  recomendacion 1000 7 950 9 12 (1 # 20) = OK opcion_3.
Proof.
  assert (HP : 0 <= 1000) by discriminate.
  assert (Hx : 0 < 1 + (1 # 20)) by reflexivity.
  assert (Hd : 0 <= 10) by discriminate.
  assert (Hle : 10 <= 12) by discriminate.
  assert (H : recomendacion 1000 7 950 9 10 (1 # 20) = OK opcion_3)
    by (vm_compute; reflexivity).
  split; [ exact HP | split; [ exact Hx | split; [ exact Hd | ] ] ].
  split; [ exact Hle | split; [ exact H | ] ].
  exact (recomendacion_dolar_kept_by_larger_devaluation
           1000 7 950 9 10 12 (1 # 20) HP Hx Hd Hle H).
Defined.
